(** * node-pg-migrate: the table operations of [lib/operations/tables.js]

    A shallow embedding of the DDL builders ([parseColumns], [create],
    [addColumns], [dropColumns], [alterColumn], the renames, constraints and
    types) together with the part of the JavaScript semantics they rely on:
    truthiness, property lookup through [Object.prototype], option records
    that live in a store and are passed by reference, [Array.prototype.join]
    and [String.prototype.replace] with the pattern [/^/gm]. *)

From Stdlib Require Import Ascii ZArith.
From stdpp Require Import base gmap strings list pretty.

(** ** JavaScript values and strings *)

Module Js.

(** Strings are sequences of 8-bit code units, the Latin-1 range of
    JavaScript strings.  The only line terminators in that range are LF and
    CR (U+2028 and U+2029 lie outside it). *)

Definition LF : string := String "010"%char EmptyString.
Definition DQ : string := String "034"%char EmptyString.

(** The values an option field can hold.  [VInherited m] is the value found
    under the name [m] on [Object.prototype]: a built-in function object, or
    [Object.prototype] itself for [__proto__].  [VNumber] stands for an
    integer-valued number. *)
Inductive Value :=
| VUndefined
| VNull
| VBool (b : bool)
| VNumber (n : Z)
| VString (s : string)
| VInherited (member : string).

#[global] Instance Value_eq_dec : EqDecision Value.
Proof. solve_decision. Defined.

(** ToBoolean. *)
Definition truthy (v : Value) : bool :=
  match v with
  | VUndefined | VNull => false
  | VBool b => b
  | VNumber n => negb (n =? 0)%Z
  | VString s => negb (bool_decide (s = EmptyString))
  | VInherited _ => true
  end.

(** An object record: its own enumerable properties. *)
Abbreviation Object := (gmap string Value).

(** The property names every object literal inherits from
    [Object.prototype] (ECMAScript, with Annex B). *)
Definition objectPrototypeMembers : list string :=
  [ "constructor"; "hasOwnProperty"; "isPrototypeOf"; "propertyIsEnumerable";
    "toLocaleString"; "toString"; "valueOf"; "__proto__";
    "__defineGetter__"; "__defineSetter__";
    "__lookupGetter__"; "__lookupSetter__" ].

Definition inherited (key : string) : bool :=
  bool_decide (key ∈ objectPrototypeMembers).

(** [obj[key]] on an object literal: an own property first, then the
    prototype chain, [undefined] when neither has the name. *)
Definition getProperty (obj : Object) (key : string) : Value :=
  match obj !! key with
  | Some v => v
  | None => if inherited key then VInherited key else VUndefined
  end.

(** [array.join(sep)] on an array of strings. *)
Definition join (sep : string) (array : list string) : string :=
  String.concat sep array.

Definition isLineTerminator (c : ascii) : bool :=
  bool_decide (c = "010"%char) || bool_decide (c = "013"%char).

(** The replacement text of [String.prototype.replace] for one empty match
    of a pattern without capture groups (ECMAScript GetSubstitution):
    [$$] stands for a dollar sign, [$&] for the matched text (empty here),
    [$`] for the text before the match, [$'] for the text after it; a dollar
    sign followed by anything else stands for itself. *)
Fixpoint getSubstitution (before after replacement : string) : string :=
  match replacement with
  | EmptyString => EmptyString
  | String c tail =>
      if bool_decide (c = "$"%char) then
        match tail with
        | EmptyString => String c EmptyString
        | String d rest =>
            if bool_decide (d = "$"%char) then
              String "$" (getSubstitution before after rest)
            else if bool_decide (d = "&"%char) then
              getSubstitution before after rest
            else if bool_decide (d = "`"%char) then
              before +:+ getSubstitution before after rest
            else if bool_decide (d = "'"%char) then
              after +:+ getSubstitution before after rest
            else String c (getSubstitution before after tail)
        end
      else String c (getSubstitution before after tail)
  end.

(** The matches of [/^/gm] after position 0: one empty match right after
    every line terminator.  [before] is the text already passed. *)
Fixpoint replaceAfterTerminators (replacement before str : string) : string :=
  match str with
  | EmptyString => EmptyString
  | String c rest =>
      let before' := before +:+ String c EmptyString in
      String c
        (if isLineTerminator c
         then getSubstitution before' rest replacement
                +:+ replaceAfterTerminators replacement before' rest
         else replaceAfterTerminators replacement before' rest)
  end.

(** [str.replace(/^/gm, replacement)]: the pattern matches the empty string
    at position 0 and after every line terminator. *)
Definition replaceLineStarts (str replacement : string) : string :=
  getSubstitution EmptyString str replacement
    +:+ replaceAfterTerminators replacement EmptyString str.

(** A replacement text without a dollar sign is inserted as it is. *)
Fixpoint noDollar (s : string) : bool :=
  match s with
  | EmptyString => true
  | String c rest => negb (bool_decide (c = "$"%char)) && noDollar rest
  end.

(** A text without a line terminator. *)
Fixpoint singleLine (s : string) : bool :=
  match s with
  | EmptyString => true
  | String c rest => negb (isLineTerminator c) && singleLine rest
  end.

(** What the code imports or inherits from its environment. *)
Class Environment := {
  (** [escapeValue] of [../utils]: renders a value as a DDL literal. *)
  escapeValue : Value → string;
  (** how [template] of [../utils] renders a piece that is not a string *)
  templateValue : Value → string;
  (** [String(v)] for a value that is not a string *)
  stringOfValue : Value → string
}.

(** ToString, as applied by the substitutions of a template literal. *)
Definition toString `{Environment} (v : Value) : string :=
  match v with
  | VString s => s
  | _ => stringOfValue v
  end.

End Js.

(** ** The operations of [tables.js] *)

Module Tables.
Import Js.

(** Option records of the caller and of shorthand dictionaries are objects
    in a store and are passed by reference. *)
Abbreviation loc := positive.
Abbreviation Heap := (gmap loc Object).

(** An object of the caller as a session of calls sees it: its own
    properties, in the order in which [_.keys] and [_.mapValues] enumerate
    them.  The values of the model hold no reference to an object, so an
    object of the store gives its columns as strings or leaves them
    undefined; a ColumnSet whose columns are given as records is written at
    the call. *)
Abbreviation Properties := (list (string * Value)).
Abbreviation Store := (gmap loc Properties).

(** A column specification: a shorthand string, a reference to an option
    record, or [undefined] (which the default parameter replaces by a new
    empty record). *)
Inductive ColumnSpec :=
| SpecUndefined
| SpecString (s : string)
| SpecRecord (l : loc).

(** A ColumnSet, in the enumeration order of the object's keys. *)
Abbreviation ColumnSet := (list (string * ColumnSpec)).

(** What the parameter [options] of the expansion callback is bound to. *)
Inductive Options :=
| Shared (l : loc)        (* a record of the caller or of a shorthand dictionary *)
| Fresh (obj : Object)    (* an object literal created by this call, referenced by this column only *)
| Builtin (member : string). (* a member of Object.prototype found through the prototype chain *)

Definition type_adapters : Object :=
  list_to_map
    [ ("int", VString "integer");
      ("string", VString "text");
      ("float", VString "real");
      ("double", VString "double precision");
      ("datetime", VString "timestamp");
      ("bool", VString "boolean") ].

(** The record [{ type: 'serial', primaryKey: true }] of the module. *)
Definition idRecord : loc := 1%positive.

Definition default_type_shorthands : gmap string loc := {[ "id" := idRecord ]}.

(** The store when the module has been loaded. *)
Definition initialHeap : Heap :=
  {[ idRecord := list_to_map [("type", VString "serial"); ("primaryKey", VBool true)] ]}.

(** [type_adapters[type] ? type_adapters[type] : type].  The property key of
    a value that is not a string (undefined, null, true, a numeral, the
    source text of a function) names no property of [type_adapters] or of
    [Object.prototype], so the lookup yields [undefined] for it. *)
Definition applyTypeAdapters (type : Value) : Value :=
  match type with
  | VString key =>
      if truthy (getProperty type_adapters key)
      then getProperty type_adapters key
      else type
  | _ => type
  end.

Section WithEnvironment.
Context `{Environment}.

(** A piece substituted by [template]: a string stands for itself, the
    rendering of any other value is left to the environment. *)
Definition templatePiece (key : Value) : string :=
  match key with
  | VString piece => piece
  | _ => templateValue key
  end.

(** Modelled from the spec: [template] is imported from [../utils], which is
    not among the sources; the specification describes it as formatting a
    SQL fragment by positionally substituting already-quoted or escaped
    pieces.  It is called as a template tag, with the literal parts and the
    substituted values. *)
Fixpoint template (strings : list string) (keys : list Value) : string :=
  match strings with
  | [] => EmptyString
  | s :: strings' =>
      match keys with
      | [] => s
      | k :: keys' => s +:+ templatePiece k +:+ template strings' keys'
      end
  end.

Definition quote (array : list Value) : list string :=
  map (λ item, template [DQ; DQ] [item]) array.

(** [type_shorthands[options]]: an own entry is a reference to a record; a
    name of [Object.prototype] yields that built-in; both are objects, hence
    truthy.  Any other name yields [undefined]. *)
Definition lookupShorthand (type_shorthands : gmap string loc) (key : string)
  : option Options :=
  match type_shorthands !! key with
  | Some l => Some (Shared l)
  | None => if inherited key then Some (Builtin key) else None
  end.

(** Lines 24-29: the default parameter and the shorthand resolution. *)
Definition resolveOptions (type_shorthands : gmap string loc) (options : ColumnSpec)
  : Options :=
  match options with
  | SpecUndefined => Fresh ∅
  | SpecString s =>
      match lookupShorthand type_shorthands s with
      | Some found => found
      | None => Fresh {[ "type" := VString s ]}
      end
  | SpecRecord l => Shared l
  end.

(** [options.type = applyTypeAdapters(options.type)] on one object. *)
Definition assignType (obj : Object) : Object :=
  <[ "type" := applyTypeAdapters (getProperty obj "type") ]> obj.

(** Line 31, on whatever [options] is bound to.  A shared record is updated
    in the store.  A built-in has none of the option fields, so it receives
    an own [type] of [undefined], which no later lookup can observe: the
    store does not record it. *)
Definition adaptType (h : Heap) (options : Options) : Heap * Options :=
  match options with
  | Shared l => (alter assignType l h, Shared l)
  | Fresh obj => (h, Fresh (assignType obj))
  | Builtin member => (h, Builtin member)
  end.

(** The callback of the first [_.mapValues] (lines 24-34). *)
Definition expandColumn (type_shorthands : gmap string loc) (h : Heap)
  (options : ColumnSpec) : Heap * Options :=
  adaptType h (resolveOptions type_shorthands options).

(** [_.mapValues(columns, ...)]: the callback runs on the columns in order,
    each seeing the store left by the previous one. *)
Fixpoint expandColumns (type_shorthands : gmap string loc) (h : Heap)
  (columns : ColumnSet) : Heap * list (string * Options) :=
  match columns with
  | [] => (h, [])
  | (column_name, options) :: rest =>
      let '(h1, expanded) := expandColumn type_shorthands h options in
      let '(h2, others) := expandColumns type_shorthands h1 rest in
      (h2, (column_name, expanded) :: others)
  end.

(** The own enumerable properties of the object [options] refers to.  A
    reference is always to an object of the store; a built-in shows the
    [type] that line 31 gave it. *)
Definition deref (h : Heap) (options : Options) : Object :=
  match options with
  | Shared l => default ∅ (h !! l)
  | Fresh obj => obj
  | Builtin _ => assignType ∅
  end.

(** Lines 36-39: the chain of [map] and [filter]; [filter()] without a
    predicate keeps the truthy elements. *)
Definition primaryColumnsOf (columnsWithOptions : list (string * Object))
  : list Value :=
  filter (λ v, truthy v = true)
    (map (λ '(column_name, options),
            if truthy (getProperty options "primaryKey")
            then VString column_name else VNull)
         columnsWithOptions).

Definition push (array : list string) (item : string) : list string :=
  array ++ [item].

(** Lines 50-71: the constraints of one column. *)
Definition columnConstraints (options : Object) : list string :=
  let constraints := [] in
  let constraints :=
    if truthy (getProperty options "unique")
    then push constraints "UNIQUE" else constraints in
  let constraints :=
    if truthy (getProperty options "primaryKey")
    then push constraints "PRIMARY KEY" else constraints in
  let constraints :=
    if truthy (getProperty options "notNull")
    then push constraints "NOT NULL" else constraints in
  let constraints :=
    if truthy (getProperty options "check")
    then push constraints ("CHECK (" +:+ toString (getProperty options "check") +:+ ")")
    else constraints in
  if truthy (getProperty options "references") then
    let constraints :=
      push constraints ("REFERENCES " +:+ toString (getProperty options "references")) in
    let constraints :=
      if truthy (getProperty options "onDelete")
      then push constraints ("ON DELETE " +:+ toString (getProperty options "onDelete"))
      else constraints in
    if truthy (getProperty options "onUpdate")
    then push constraints ("ON UPDATE " +:+ toString (getProperty options "onUpdate"))
    else constraints
  else constraints.

(** Lines 49-77: the fragment of one column. *)
Definition columnDefinition (options : Object) (column_name : string) : string :=
  let constraints := columnConstraints options in
  let defaultValue :=
    if decide (getProperty options "default" = VUndefined)
    then EmptyString
    else " DEFAULT " +:+ escapeValue (getProperty options "default") in
  let constraintsString :=
    if (0 <? length constraints)%nat
    then " " +:+ join " " constraints else EmptyString in
  template [DQ; DQ +:+ " "; EmptyString; EmptyString; EmptyString]
    [VString column_name; getProperty options "type";
     VString defaultValue; VString constraintsString].

Definition primaryKeyConstraint (table_name : Value) (primaryColumns : list Value)
  : string :=
  "CONSTRAINT " +:+ DQ +:+ toString table_name +:+ "_pkey" +:+ DQ
    +:+ " PRIMARY KEY (" +:+ join ", " (quote primaryColumns) +:+ ")".

(** Lines 36-81: the array that is joined at line 82, from the records the
    columns are bound to once the first pass is over. *)
Definition columnItems (columnsWithOptions : list (string * Object))
  (table_name : Value) : list string :=
  let primaryColumns := primaryColumnsOf columnsWithOptions in
  let multiplePrimaryColumns := (1 <? length primaryColumns)%nat in
  let columnsWithOptions :=
    if multiplePrimaryColumns
    then map (λ '(column_name, options),
                (column_name, <[ "primaryKey" := VBool false ]> options))
             columnsWithOptions
    else columnsWithOptions in
  map (λ '(column_name, options), columnDefinition options column_name)
      columnsWithOptions
    ++ (if multiplePrimaryColumns
        then [primaryKeyConstraint table_name primaryColumns]
        else []).

(** The records of the columns after the first pass. *)
Definition expandedRecords (h : Heap) (columns : ColumnSet)
  (extending_type_shorthands : gmap string loc) : list (string * Object) :=
  let type_shorthands := extending_type_shorthands ∪ default_type_shorthands in
  let '(h1, columnsWithOptions) := expandColumns type_shorthands h columns in
  map (λ '(column_name, options), (column_name, deref h1 options))
      columnsWithOptions.

(** [parseColumns]: the store it leaves and the text it returns.  The
    spread [{ ...default_type_shorthands, ...extending_type_shorthands }] is
    the union in which the caller's entries win. *)
Definition parseColumns (h : Heap) (columns : ColumnSet) (table_name : Value)
  (extending_type_shorthands : gmap string loc) : Heap * string :=
  let type_shorthands := extending_type_shorthands ∪ default_type_shorthands in
  let '(h1, columnsWithOptions) := expandColumns type_shorthands h columns in
  let records :=
    map (λ '(column_name, options), (column_name, deref h1 options))
        columnsWithOptions in
  (h1, join ("," +:+ LF) (columnItems records table_name)).


(** [create(type_shorthands)(table_name, columns, options)]; [options] is
    what the parameter is bound to: an object of the caller, or the new
    [{}] of the default parameter.  It is read after [parseColumns] has
    run. *)
Definition create (type_shorthands : gmap string loc) (h : Heap)
  (table_name : string) (columns : ColumnSet) (options : Options) : Heap * string :=
  let '(h1, parsed) := parseColumns h columns (VString table_name) type_shorthands in
  let columnsString := replaceLineStarts parsed "  " in
  let inherits :=
    if truthy (getProperty (deref h1 options) "inherits")
    then " INHERITS " +:+ toString (getProperty (deref h1 options) "inherits")
    else EmptyString in
  (h1, template ["CREATE TABLE " +:+ DQ; DQ +:+ " (" +:+ LF; LF +:+ ")"; ";"]
         [VString table_name; VString columnsString; VString inherits]).

Definition drop (table_name : string) : string :=
  template ["DROP TABLE " +:+ DQ; DQ +:+ ";"] [VString table_name].

Definition addColumns (type_shorthands : gmap string loc) (h : Heap)
  (table_name : string) (columns : ColumnSet) : Heap * string :=
  let '(h1, parsed) := parseColumns h columns (VString table_name) type_shorthands in
  (h1, template ["ALTER TABLE " +:+ DQ; DQ +:+ LF; ";"]
         [VString table_name; VString (replaceLineStarts parsed "  ADD ")]).

(** The [columns] argument of [dropColumns]: a name, an array of names, or
    an object of which only the keys are used. *)
Inductive DropTarget :=
| DropName (column : string)
| DropNames (columns : list string)
| DropColumnSet (columns : ColumnSet).

Definition dropColumns (table_name : string) (columns : DropTarget) : string :=
  let columns :=
    match columns with
    | DropName column => [column]              (* typeof columns === 'string' *)
    | DropNames columns => columns             (* _.isArray(columns) *)
    | DropColumnSet columns => map fst columns (* _.keys(columns) *)
    end in
  template ["ALTER TABLE " +:+ DQ; DQ +:+ LF; ";"]
    [VString table_name;
     VString (replaceLineStarts (join ("," +:+ LF) (quote (map VString columns)))
                "  DROP ")].

(** Lines 115-128: the actions of [alterColumn]. *)
Definition alterActions (options : Object) : list string :=
  let actions := [] in
  let actions :=
    if decide (getProperty options "default" = VNull)
    then push actions "DROP DEFAULT"
    else if decide (getProperty options "default" = VUndefined)
    then actions
    else push actions ("SET DEFAULT " +:+ escapeValue (getProperty options "default")) in
  let actions :=
    if truthy (getProperty options "type")
    then push actions
           ("SET DATA TYPE " +:+ toString (applyTypeAdapters (getProperty options "type")))
    else actions in
  if truthy (getProperty options "notNull")
  then push actions "SET NOT NULL"
  else if bool_decide (getProperty options "notNull" = VBool false)
          || truthy (getProperty options "allowNull")
  then push actions "DROP NOT NULL"
  else actions.

Definition alterColumn (table_name column_name : string) (options : Object) : string :=
  let actions := alterActions options in
  template ["ALTER TABLE " +:+ DQ; DQ +:+ LF; ";"]
    [VString table_name;
     VString (replaceLineStarts (join ("," +:+ LF) actions)
                ("  ALTER " +:+ DQ +:+ column_name +:+ DQ +:+ " "))].

Definition renameTable (table_name new_name : string) : string :=
  template ["ALTER TABLE " +:+ DQ; DQ +:+ " RENAME TO " +:+ DQ; DQ +:+ ";"]
    [VString table_name; VString new_name].

Definition undoRenameTable (table_name new_name : string) : string :=
  renameTable new_name table_name.

Definition renameColumn (table_name column_name new_name : string) : string :=
  template ["ALTER TABLE " +:+ DQ; DQ +:+ " RENAME " +:+ DQ; DQ +:+ " TO " +:+ DQ; DQ +:+ ";"]
    [VString table_name; VString column_name; VString new_name].

Definition undoRenameColumn (table_name column_name new_name : string) : string :=
  renameColumn table_name new_name column_name.

Definition addConstraint (table_name : string) (constraint_name : Value)
  (expression : string) : string :=
  template ["ALTER TABLE " +:+ DQ; DQ +:+ " ADD"; " "; ";"]
    [VString table_name;
     VString (if truthy constraint_name
              then " CONSTRAINT " +:+ DQ +:+ toString constraint_name +:+ DQ
              else EmptyString);
     VString expression].

Definition dropConstraint (table_name constraint_name : string) : string :=
  template ["ALTER TABLE " +:+ DQ; DQ +:+ " DROP CONSTRAINT " +:+ DQ; DQ +:+ ";"]
    [VString table_name; VString constraint_name].

(** The [options] argument of [createType]: an array of labels or a
    ColumnSet. *)
Inductive TypeOptions :=
| EnumLabels (labels : list string)
| CompositeColumns (columns : ColumnSet).

(** [parseColumns(options)] is called without a table name and without
    shorthands: [table_name] is [undefined] there and the default parameter
    makes the dictionary empty. *)
Definition createType (h : Heap) (type_name : string) (options : TypeOptions)
  : Heap * string :=
  match options with
  | EnumLabels labels =>
      (h, template ["CREATE TYPE " +:+ DQ; DQ +:+ " AS ENUM ('"; "');"]
            [VString type_name; VString (join "', '" labels)])
  | CompositeColumns columns =>
      let '(h1, parsed) := parseColumns h columns VUndefined ∅ in
      (h1, template ["CREATE TYPE " +:+ DQ; DQ +:+ " AS (" +:+ LF; LF +:+ ");"]
             [VString type_name; VString parsed])
  end.

Definition dropType (type_name : string) : string :=
  template ["DROP TYPE " +:+ DQ; DQ +:+ ";"] [VString type_name].

Definition alterType : Value := VNull.

(** *** Notions used to state the properties *)

(** A column declares a primary key when the flag of its expanded record
    is set. *)
Definition declaresPrimaryKey (options : Object) : bool :=
  truthy (getProperty options "primaryKey").

Definition primaryKeyNames (records : list (string * Object)) : list string :=
  map fst (filter (λ record, declaresPrimaryKey (snd record) = true) records).

(** A keyword that is present or not. *)
Definition keyword (present : bool) (text : string) : list string :=
  if present then [text] else [].

(** The names a [DropTarget] stands for. *)
Definition droppedNames (columns : DropTarget) : list string :=
  match columns with
  | DropName column => [column]
  | DropNames columns => columns
  | DropColumnSet columns => map fst columns
  end.

(** One statement with one DROP clause per column, in the given order. *)
Definition dropStatement (table_name : string) (names : list string) : string :=
  "ALTER TABLE " +:+ DQ +:+ table_name +:+ DQ +:+ LF
    +:+ join ("," +:+ LF) (map (λ name, "  DROP " +:+ DQ +:+ name +:+ DQ) names)
    +:+ ";".

(** The constraint of a composite key over the named columns. *)
Definition compositeKeyConstraint (table_name : Value) (names : list string) : string :=
  "CONSTRAINT " +:+ DQ +:+ toString table_name +:+ "_pkey" +:+ DQ
    +:+ " PRIMARY KEY (" +:+ join ", " (map (λ name, DQ +:+ name +:+ DQ) names) +:+ ")".

(** The composite-key rule on the array that [parseColumns] joins.  With
    more than one declaring column, none of them under the empty name: the
    fragments of all columns, none with the inline modifier, followed by
    the one constraint that lists the declaring columns in order.  With
    exactly one, whatever the names: the fragments alone, the declaring
    column with the inline modifier. *)
Definition CompositeKeyInvariant (h : Heap) (columns : ColumnSet)
  (table_name : Value) (extending_type_shorthands : gmap string loc) : Prop :=
  let records := expandedRecords h columns extending_type_shorthands in
  let names := primaryKeyNames records in
  snd (parseColumns h columns table_name extending_type_shorthands)
    = join ("," +:+ LF) (columnItems records table_name)
  ∧ (1 < length names →
     Forall (λ name, name ≠ EmptyString) names →
       columnItems records table_name
       = map (λ record, columnDefinition (<[ "primaryKey" := VBool false ]> (snd record))
                          (fst record)) records
           ++ [compositeKeyConstraint table_name names]
       ∧ Forall (λ record,
                   "PRIMARY KEY" ∉ columnConstraints
                                     (<[ "primaryKey" := VBool false ]> (snd record)))
                records)
  ∧ (length names = 1 →
       columnItems records table_name
       = map (λ record, columnDefinition (snd record) (fst record)) records
       ∧ Forall (λ record,
                   declaresPrimaryKey (snd record) = true →
                   "PRIMARY KEY" ∈ columnConstraints (snd record))
                records).


(** Two stores that agree once every record has gone through line 31. *)
Definition similar (h h' : Heap) : Prop :=
  ∀ l : loc, assignType <$> h !! l = assignType <$> h' !! l.

(** The record of the store a column specification leads to, if any: the
    record itself, or the entry of the merged dictionary for a string. *)
Definition referencedRecord (type_shorthands : gmap string loc)
  (options : ColumnSpec) : option loc :=
  match options with
  | SpecUndefined => None
  | SpecString s => type_shorthands !! s
  | SpecRecord l => Some l
  end.

Definition referencedRecords (type_shorthands : gmap string loc)
  (columns : ColumnSet) : list loc :=
  omap (λ column, referencedRecord type_shorthands (snd column)) columns.

(** The fields that [alterColumn] reads. *)
Definition alterFields : list string := ["default"; "type"; "notNull"; "allowNull"].

(** The keys of [type_adapters]. *)
Definition adapterKeys : list string :=
  ["int"; "string"; "float"; "double"; "datetime"; "bool"].



(** The names that the chain of lines 36-39 keeps: those of the declaring
    columns, without the empty name. *)
Definition collectedKeys (records : list (string * Object)) : list string :=
  filter (λ name, name ≠ EmptyString) (primaryKeyNames records).




(** *** Calls of the exported builders *)

(** The record that the builders read in an object: its own properties by
    name. *)
Definition recordOf (properties : Properties) : Object := list_to_map properties.

Definition recordsOf (store : Store) : Heap := recordOf <$> store.

(** A reference is always to an object of the store. *)
Definition sharedObject (store : Store) (l : loc) : Properties :=
  default [] (store !! l).

(** [object[key] = v]: an own property keeps its place in the enumeration;
    a new property whose key is not an array index is enumerated last. *)
Definition assign (key : string) (v : Value) (properties : Properties) : Properties :=
  if bool_decide (key ∈ map fst properties)
  then map (λ '(k, w), (k, if bool_decide (k = key) then v else w)) properties
  else properties ++ [(key, v)].

(** Line 31 on an object of the store. *)
Definition assignTypeInPlace (properties : Properties) : Properties :=
  assign "type" (applyTypeAdapters (getProperty (recordOf properties) "type"))
    properties.

(** Line 31 for one column: the callback writes into the record the column
    leads to, if it leads to one. *)
Definition resolveType (type_shorthands : gmap string loc) (store : Store)
  (options : ColumnSpec) : Store :=
  match referencedRecord type_shorthands options with
  | Some l => alter assignTypeInPlace l store
  | None => store
  end.

(** The store after the first pass (lines 24-34 write nothing else). *)
Definition resolveTypes (type_shorthands : gmap string loc) (store : Store)
  (columns : ColumnSet) : Store :=
  foldl (λ store column, resolveType type_shorthands store (snd column)) store columns.

(** What a value of an object specifies for its column.  [None]: line 31
    raises a TypeError, on [null] always and on a boolean or a number
    because module code is strict.  A built-in object has none of the
    option fields: the callback finds in it what it finds in the new empty
    record of the default parameter. *)
Definition columnSpecOf (v : Value) : option ColumnSpec :=
  match v with
  | VUndefined => Some SpecUndefined
  | VString s => Some (SpecString s)
  | VInherited _ => Some SpecUndefined
  | VNull | VBool _ | VNumber _ => None
  end.

Definition ownValue (properties : Properties) (key : string) : Value :=
  default VUndefined (recordOf properties !! key).

(** [_.mapValues] on an object of the store: the keys are taken when the
    call begins, and the value of a key is read when its turn comes, after
    line 31 has run for the columns before it. *)
Fixpoint readColumns (type_shorthands : gmap string loc) (store : Store) (l : loc)
  (keys : list string) : option ColumnSet :=
  match keys with
  | [] => Some []
  | column_name :: keys =>
      options ← columnSpecOf (ownValue (sharedObject store l) column_name);
      others ← readColumns type_shorthands
                  (resolveType type_shorthands store options) l keys;
      Some ((column_name, options) :: others)
  end.

(** A ColumnSet argument: an object literal written at the call, to which
    nothing else refers, or an object of the store. *)
Inductive Columns :=
| ColumnsLiteral (columns : ColumnSet)
| ColumnsShared (l : loc).

(** The columns the first pass goes through, each as the callback finds
    it. *)
Definition columnSetOf (type_shorthands : gmap string loc) (store : Store)
  (columns : Columns) : option ColumnSet :=
  match columns with
  | ColumnsLiteral columns => Some columns
  | ColumnsShared l =>
      readColumns type_shorthands store l (map fst (sharedObject store l))
  end.

(** A call of an exported function with its arguments.  Objects that a
    builder reads or enumerates are given by reference, so that one object
    can serve several calls, and serve as a ColumnSet in one call and as
    an option record in another.  A dictionary is given with its entries:
    the builders copy it (line 23) before they look anything up. *)
Inductive Call :=
| CallCreate (type_shorthands : gmap string loc) (table_name : string)
    (columns : Columns) (options : option loc)
| CallDrop (table_name : string)
| CallAddColumns (type_shorthands : gmap string loc) (table_name : string)
    (columns : Columns)
| CallDropColumns (table_name : string) (columns : DropTarget)
| CallDropColumnsOf (table_name : string) (columns : loc)
| CallAlterColumn (table_name column_name : string) (options : loc)
| CallRenameTable (table_name new_name : string)
| CallUndoRenameTable (table_name new_name : string)
| CallRenameColumn (table_name column_name new_name : string)
| CallUndoRenameColumn (table_name column_name new_name : string)
| CallAddConstraint (table_name : string) (constraint_name : Value) (expression : string)
| CallDropConstraint (table_name constraint_name : string)
| CallCreateType (type_name : string) (options : TypeOptions)
| CallCreateTypeOf (type_name : string) (options : loc)
| CallDropType (type_name : string)
| CallAlterType.

(** [parseColumns] under a builder: the store it leaves and what the
    builder makes of the columns, or [None] when line 31 raises. *)
Definition withColumns (type_shorthands : gmap string loc) (store : Store)
  (columns : Columns) (builder : ColumnSet → string) : option (Store * Value) :=
  columns ← columnSetOf type_shorthands store columns;
  Some (resolveTypes type_shorthands store columns, VString (builder columns)).

(** The store after the call and the value returned; [None] when the call
    raises a TypeError. *)
Definition run (store : Store) (call : Call) : option (Store * Value) :=
  match call with
  | CallCreate type_shorthands table_name columns options =>
      let options :=
        match options with
        | Some l => Shared l
        | None => Fresh ∅
        end in
      withColumns (type_shorthands ∪ default_type_shorthands) store columns
        (λ columns,
           snd (create type_shorthands (recordsOf store) table_name columns options))
  | CallDrop table_name => Some (store, VString (drop table_name))
  | CallAddColumns type_shorthands table_name columns =>
      withColumns (type_shorthands ∪ default_type_shorthands) store columns
        (λ columns, snd (addColumns type_shorthands (recordsOf store) table_name columns))
  | CallDropColumns table_name columns =>
      Some (store, VString (dropColumns table_name columns))
  | CallDropColumnsOf table_name columns =>   (* _.keys(columns) *)
      Some (store,
            VString (dropColumns table_name
                       (DropNames (map fst (sharedObject store columns)))))
  | CallAlterColumn table_name column_name options =>
      Some (store,
            VString (alterColumn table_name column_name
                       (deref (recordsOf store) (Shared options))))
  | CallRenameTable table_name new_name =>
      Some (store, VString (renameTable table_name new_name))
  | CallUndoRenameTable table_name new_name =>
      Some (store, VString (undoRenameTable table_name new_name))
  | CallRenameColumn table_name column_name new_name =>
      Some (store, VString (renameColumn table_name column_name new_name))
  | CallUndoRenameColumn table_name column_name new_name =>
      Some (store, VString (undoRenameColumn table_name column_name new_name))
  | CallAddConstraint table_name constraint_name expression =>
      Some (store, VString (addConstraint table_name constraint_name expression))
  | CallDropConstraint table_name constraint_name =>
      Some (store, VString (dropConstraint table_name constraint_name))
  | CallCreateType type_name (EnumLabels labels) =>
      Some (store,
            VString (snd (createType (recordsOf store) type_name (EnumLabels labels))))
  | CallCreateType type_name (CompositeColumns columns) =>
      withColumns (∅ ∪ default_type_shorthands) store (ColumnsLiteral columns)
        (λ columns,
           snd (createType (recordsOf store) type_name (CompositeColumns columns)))
  | CallCreateTypeOf type_name options =>
      withColumns (∅ ∪ default_type_shorthands) store (ColumnsShared options)
        (λ columns,
           snd (createType (recordsOf store) type_name (CompositeColumns columns)))
  | CallDropType type_name => Some (store, VString (dropType type_name))
  | CallAlterType => Some (store, alterType)
  end.

(** The store after a sequence of calls, none of which raises. *)
Fixpoint runAll (store : Store) (calls : list Call) : option Store :=
  match calls with
  | [] => Some store
  | call :: calls =>
      result ← run store call;
      runAll (fst result) calls
  end.

(** A call that enumerates no object of the store: its ColumnSet, if it
    takes one, is written at the call. *)
Definition enumeratesLiteral (call : Call) : bool :=
  match call with
  | CallCreate _ _ (ColumnsShared _) _
  | CallAddColumns _ _ (ColumnsShared _)
  | CallDropColumnsOf _ _
  | CallCreateTypeOf _ _ => false
  | _ => true
  end.

(** The store when the module has been loaded. *)
Definition initialStore : Store :=
  {[ idRecord := [("type", VString "serial"); ("primaryKey", VBool true)] ]}.

End WithEnvironment.

(** *** The reverse functions (lines 164-170) *)

Inductive Builder :=
| Create | Drop | AddColumns | DropColumns | AlterColumn
| RenameTable | UndoRenameTable | RenameColumn | UndoRenameColumn
| AddConstraint | DropConstraint | CreateType | DropType | AlterType.

Definition reverse (builder : Builder) : option Builder :=
  match builder with
  | Create => Some Drop
  | AddColumns => Some DropColumns
  | AddConstraint => Some DropConstraint
  | CreateType => Some DropType
  | RenameColumn => Some UndoRenameColumn
  | RenameTable => Some UndoRenameTable
  | _ => None
  end.

(** *** A sample environment, for concrete evaluations *)

Definition sampleEscape (v : Value) : string :=
  match v with
  | VUndefined => "undefined"
  | VNull => "NULL"
  | VBool true => "true"
  | VBool false => "false"
  | VNumber n => pretty n
  | VString s => "'" +:+ s +:+ "'"
  | VInherited member => member
  end.

Definition sampleString (v : Value) : string :=
  match v with
  | VUndefined => "undefined"
  | VNull => "null"
  | VBool true => "true"
  | VBool false => "false"
  | VNumber n => pretty n
  | VString s => s
  | VInherited member => "function " +:+ member +:+ "() { [native code] }"
  end.

Definition sampleEnvironment : Environment :=
  {| escapeValue := sampleEscape;
     templateValue := sampleString;
     stringOfValue := sampleString |}.

(** A store with two records of a caller, and a ColumnSet over it. *)
Definition sampleHeap : Heap :=
  <[ 2%positive := list_to_map [("type", VString "int"); ("notNull", VBool true)] ]>
    (<[ 3%positive := {[ "type" := VString "float" ]} ]> initialHeap).

Definition sampleColumns : ColumnSet :=
  [("id", SpecString "id"); ("age", SpecRecord 2%positive)].

(** The same records as the objects of a session, before and after a call
    that has resolved their types. *)
Definition sampleStore : Store :=
  <[ 2%positive := [("type", VString "int"); ("notNull", VBool true)] ]>
    (<[ 3%positive := [("type", VString "float")] ]> initialStore).

Definition sampleStoreResolved : Store :=
  <[ 2%positive := [("type", VString "integer"); ("notNull", VBool true)] ]>
    (<[ 3%positive := [("type", VString "float")] ]> initialStore).

End Tables.

(** * Properties *)

Import Js Tables.

(** ** Strings *)

#[local] Arguments String.append !_ _ / : simpl nomatch.

Lemma append_assoc (s1 s2 s3 : string) :
  (s1 +:+ s2) +:+ s3 = s1 +:+ (s2 +:+ s3).
Proof. induction s1 as [|c s1 IH]; simpl; [done | by rewrite IH]. Qed.

Lemma append_empty_r (s : string) : s +:+ EmptyString = s.
Proof. induction s as [|c s IH]; simpl; [done | by rewrite IH]. Qed.

Lemma singleLine_app (s1 s2 : string) :
  singleLine (s1 +:+ s2) = singleLine s1 && singleLine s2.
Proof.
  induction s1 as [|c s1 IH]; simpl; [done |].
  rewrite IH. by destruct (isLineTerminator c).
Qed.

Lemma getSubstitution_noDollar (before after replacement : string) :
  noDollar replacement = true →
  getSubstitution before after replacement = replacement.
Proof.
  induction replacement as [|c tail IH]; simpl; [done |].
  intros [Hc Htail]%andb_prop.
  destruct (bool_decide (c = "$"%char)); [done |].
  by rewrite IH.
Qed.

Lemma replaceAfterTerminators_app (replacement before s1 s2 : string) :
  singleLine s1 = true →
  replaceAfterTerminators replacement before (s1 +:+ s2)
  = s1 +:+ replaceAfterTerminators replacement (before +:+ s1) s2.
Proof.
  revert before. induction s1 as [|c s1 IH]; intros before; simpl.
  - by rewrite append_empty_r.
  - intros [Hc Hs1]%andb_prop. apply negb_true_iff in Hc. rewrite Hc.
    rewrite IH by done. by rewrite append_assoc.
Qed.

Lemma replaceAfterTerminators_singleLine (replacement before s : string) :
  singleLine s = true → replaceAfterTerminators replacement before s = s.
Proof.
  intros Hs. rewrite <- (append_empty_r s) at 1.
  rewrite replaceAfterTerminators_app by done. simpl. apply append_empty_r.
Qed.

(** With a replacement free of dollar signs, [replace(/^/gm, ...)] on the
    lines of a joined array prefixes every element. *)
Lemma replaceAfterTerminators_join (replacement before : string) (items : list string) :
  noDollar replacement = true →
  items ≠ [] →
  Forall (λ item, singleLine item = true) items →
  replacement +:+ replaceAfterTerminators replacement before (join ("," +:+ LF) items)
  = join ("," +:+ LF) (map (λ item, replacement +:+ item) items).
Proof.
  intros Hplain. revert before.
  induction items as [|item items IH]; intros before Hne Hlines; [done |].
  apply Forall_cons in Hlines as [Hitem Hlines].
  destruct items as [|item' items].
  - simpl. rewrite replaceAfterTerminators_singleLine by done. done.
  - change (join ("," +:+ LF) (item :: item' :: items))
      with (item +:+ ("," +:+ LF) +:+ join ("," +:+ LF) (item' :: items)).
    change (join ("," +:+ LF) (map (λ i, replacement +:+ i) (item :: item' :: items)))
      with ((replacement +:+ item) +:+ ("," +:+ LF)
              +:+ join ("," +:+ LF) (map (λ i, replacement +:+ i) (item' :: items))).
    rewrite replaceAfterTerminators_app by done.
    cbn [LF String.append replaceAfterTerminators].
    replace (isLineTerminator ",") with false by done.
    replace (isLineTerminator "010") with true by done.
    rewrite getSubstitution_noDollar by done.
    change ("," +:+ LF) with (String "," LF) in IH.
    rewrite <- (IH (((before +:+ item) +:+ ",") +:+ LF)) by done.
    by rewrite !append_assoc.
Qed.

Lemma replaceLineStarts_join (replacement : string) (items : list string) :
  noDollar replacement = true →
  items ≠ [] →
  Forall (λ item, singleLine item = true) items →
  replaceLineStarts (join ("," +:+ LF) items) replacement
  = join ("," +:+ LF) (map (λ item, replacement +:+ item) items).
Proof.
  intros Hplain Hne Hlines. unfold replaceLineStarts.
  rewrite getSubstitution_noDollar by done.
  by apply replaceAfterTerminators_join.
Qed.

(** Without dollar signs in the replacement, the text before a match plays
    no part, and the insertions go through a concatenation. *)
Lemma replaceAfterTerminators_before (replacement before before' s : string) :
  noDollar replacement = true →
  replaceAfterTerminators replacement before s
  = replaceAfterTerminators replacement before' s.
Proof.
  intros Hplain. revert before before'.
  induction s as [|c s IH]; intros before before'; simpl; [done |].
  rewrite !getSubstitution_noDollar by done.
  by rewrite (IH (before +:+ String c EmptyString) (before' +:+ String c EmptyString)).
Qed.

Lemma replaceAfterTerminators_append (replacement before s1 s2 : string) :
  noDollar replacement = true →
  replaceAfterTerminators replacement before (s1 +:+ s2)
  = replaceAfterTerminators replacement before s1
      +:+ replaceAfterTerminators replacement before s2.
Proof.
  intros Hplain. revert before.
  induction s1 as [|c s1 IH]; intros before; simpl; [done |].
  rewrite !getSubstitution_noDollar by done. rewrite IH.
  rewrite (replaceAfterTerminators_before replacement
             (before +:+ String c EmptyString) before s2) by done.
  destruct (isLineTerminator c); by rewrite ?append_assoc.
Qed.

(** In general every element of the joined array is prefixed, and the
    replacement is inserted again after each line terminator inside it. *)
Lemma replaceLineStarts_join_lines (replacement : string) (items : list string) :
  noDollar replacement = true →
  items ≠ [] →
  replaceLineStarts (join ("," +:+ LF) items) replacement
  = join ("," +:+ LF)
      (map (λ item, replacement
                      +:+ replaceAfterTerminators replacement EmptyString item)
           items).
Proof.
  intros Hplain Hne. unfold replaceLineStarts.
  rewrite getSubstitution_noDollar by done.
  induction items as [|item items IH]; [done |].
  destruct items as [|item' items]; [done |].
  change (join ("," +:+ LF) (item :: item' :: items))
    with (item +:+ ("," +:+ LF) +:+ join ("," +:+ LF) (item' :: items)).
  change (join ("," +:+ LF)
            (map (λ i, replacement +:+ replaceAfterTerminators replacement EmptyString i)
               (item :: item' :: items)))
    with ((replacement +:+ replaceAfterTerminators replacement EmptyString item)
            +:+ ("," +:+ LF)
            +:+ join ("," +:+ LF)
                  (map (λ i, replacement
                               +:+ replaceAfterTerminators replacement EmptyString i)
                     (item' :: items))).
  rewrite <- IH by done.
  rewrite !replaceAfterTerminators_append by done.
  replace (replaceAfterTerminators replacement EmptyString ",") with "," by done.
  replace (replaceAfterTerminators replacement EmptyString LF)
    with (LF +:+ replacement).
  - by rewrite !append_assoc.
  - cbn [LF String.append replaceAfterTerminators].
    replace (isLineTerminator "010") with true by done.
    by rewrite getSubstitution_noDollar, append_empty_r.
Qed.

Lemma replaceLineStarts_empty (replacement : string) :
  noDollar replacement = true →
  replaceLineStarts EmptyString replacement = replacement.
Proof.
  intros Hplain. unfold replaceLineStarts.
  rewrite getSubstitution_noDollar by done. apply append_empty_r.
Qed.

(** ** Templates *)

Section Properties.
Context `{Environment}.

Lemma template_1 (s0 s1 : string) (k0 : Value) :
  template [s0; s1] [k0] = s0 +:+ templatePiece k0 +:+ s1.
Proof. reflexivity. Qed.

Lemma template_2 (s0 s1 s2 : string) (k0 k1 : Value) :
  template [s0; s1; s2] [k0; k1]
  = s0 +:+ templatePiece k0 +:+ s1 +:+ templatePiece k1 +:+ s2.
Proof. reflexivity. Qed.

Lemma quote_strings (names : list string) :
  quote (map VString names) = map (λ name, DQ +:+ name +:+ DQ) names.
Proof.
  unfold quote. rewrite map_map. apply map_ext. intros name.
  by rewrite template_1.
Qed.

(** ** [dropColumns] *)

Lemma dropColumns_text (table_name : string) (columns : DropTarget) :
  dropColumns table_name columns
  = "ALTER TABLE " +:+ DQ +:+ table_name +:+ DQ +:+ LF
      +:+ replaceLineStarts
            (join ("," +:+ LF) (map (λ name, DQ +:+ name +:+ DQ) (droppedNames columns)))
            "  DROP "
      +:+ ";".
Proof.
  unfold dropColumns. rewrite template_2. simpl templatePiece.
  rewrite !append_assoc.
  replace (match columns with
           | DropName column => [column]
           | DropNames columns0 => columns0
           | DropColumnSet columns0 => map fst columns0
           end) with (droppedNames columns) by by destruct columns.
  by rewrite quote_strings.
Qed.

(** C9, as amended: for a column name, a sequence of names or a ColumnSet
    (of which the keys are used, in order), provided there is at least one
    name and no name contains a line terminator, [dropColumns] emits one
    ALTER TABLE statement with one DROP clause per column, joined by a comma
    and a line feed, in the given order; and a single name gives the same
    statement as the sequence holding just that name. *)
Theorem dropColumns_one_clause_per_column (table_name : string) (columns : DropTarget) :
  droppedNames columns ≠ [] →
  Forall (λ name, singleLine name = true) (droppedNames columns) →
  dropColumns table_name columns = dropStatement table_name (droppedNames columns)
  ∧ ∀ name, dropColumns table_name (DropName name)
            = dropColumns table_name (DropNames [name]).
Proof.
  intros Hne Hlines. split; [| done].
  rewrite dropColumns_text. unfold dropStatement.
  rewrite replaceLineStarts_join.
  - by rewrite map_map.
  - done.
  - by destruct (droppedNames columns).
  - apply Forall_map, (Forall_impl _ _ _ Hlines). intros name Hname. simpl.
    rewrite !singleLine_app, Hname. done.
Qed.


(** ** [applyTypeAdapters] *)

Lemma type_adapters_values (key : string) (v : Value) :
  type_adapters !! key = Some v →
  v ∈ [VString "integer"; VString "text"; VString "real";
       VString "double precision"; VString "timestamp"; VString "boolean"].
Proof.
  intros Hkey. apply elem_of_list_to_map_2 in Hkey.
  repeat (apply elem_of_cons in Hkey as [Hkey | Hkey];
          [injection Hkey as _ ->; set_solver |]).
  by apply elem_of_nil in Hkey.
Qed.

Lemma applyTypeAdapters_mapped (key : string) (v : Value) :
  type_adapters !! key = Some v → applyTypeAdapters (VString key) = v.
Proof.
  intros Hkey. pose proof (type_adapters_values _ _ Hkey) as Hv.
  unfold applyTypeAdapters, getProperty. rewrite Hkey.
  repeat (apply elem_of_cons in Hv as [-> | Hv]; [done |]).
  by apply elem_of_nil in Hv.
Qed.

Lemma applyTypeAdapters_other (key : string) :
  type_adapters !! key = None → inherited key = false →
  applyTypeAdapters (VString key) = VString key.
Proof.
  intros Hkey Hin. unfold applyTypeAdapters, getProperty. by rewrite Hkey, Hin.
Qed.

Lemma applyTypeAdapters_inherited (key : string) :
  type_adapters !! key = None → inherited key = true →
  applyTypeAdapters (VString key) = VInherited key.
Proof.
  intros Hkey Hin. unfold applyTypeAdapters, getProperty. by rewrite Hkey, Hin.
Qed.

(** The result of the lookup is never looked up to something else. *)
Lemma applyTypeAdapters_idempotent (type : Value) :
  applyTypeAdapters (applyTypeAdapters type) = applyTypeAdapters type.
Proof.
  destruct type as [| | | |key|]; try done.
  destruct (type_adapters !! key) as [v|] eqn:Hkey.
  - rewrite (applyTypeAdapters_mapped _ _ Hkey).
    pose proof (type_adapters_values _ _ Hkey) as Hv.
    repeat (apply elem_of_cons in Hv as [-> | Hv]; [done |]).
    by apply elem_of_nil in Hv.
  - destruct (inherited key) eqn:Hin.
    + by rewrite (applyTypeAdapters_inherited _ Hkey Hin).
    + by rewrite !(applyTypeAdapters_other _ Hkey Hin).
Qed.

Lemma applyTypeAdapters_truthy (type : Value) :
  truthy (applyTypeAdapters type) = truthy type.
Proof.
  destruct type as [| | | |key|]; try done.
  unfold applyTypeAdapters.
  destruct (truthy (getProperty type_adapters key)) eqn:Hfound; [| done].
  rewrite Hfound. simpl. destruct (decide (key = EmptyString)) as [-> | Hne].
  - done.
  - by rewrite bool_decide_eq_false_2.
Qed.

(** C6, at the input where the code leaves the claim: the token
    [constructor] is not a key of the adapter table, yet
    [applyTypeAdapters] does not return it unchanged; the lookup finds
    [Object.prototype.constructor] through the prototype chain of the table
    and returns that function. *)
Theorem applyTypeAdapters_constructor :
  type_adapters !! "constructor" = None
  ∧ applyTypeAdapters (VString "constructor") = VInherited "constructor"
  ∧ applyTypeAdapters (VString "constructor") ≠ VString "constructor".
Proof. by vm_compute. Qed.

(** ** [alterColumn] *)

Lemma noDollar_app (s1 s2 : string) :
  noDollar (s1 +:+ s2) = noDollar s1 && noDollar s2.
Proof.
  induction s1 as [|c s1 IH]; simpl; [done |].
  rewrite IH. by destruct (bool_decide (c = "$"%char)).
Qed.

Lemma alterColumn_text (table_name column_name : string) (options : Object) :
  alterColumn table_name column_name options
  = "ALTER TABLE " +:+ DQ +:+ table_name +:+ DQ +:+ LF
      +:+ replaceLineStarts (join ("," +:+ LF) (alterActions options))
            ("  ALTER " +:+ DQ +:+ column_name +:+ DQ +:+ " ")
      +:+ ";".
Proof.
  unfold alterColumn. rewrite template_2. simpl templatePiece.
  by rewrite !append_assoc.
Qed.

(** The clauses, by concern: default, type, nullability. *)
Lemma alterActions_precedence (options : Object) :
  alterActions options
  = (if decide (getProperty options "default" = VNull) then ["DROP DEFAULT"]
     else if decide (getProperty options "default" = VUndefined) then []
     else ["SET DEFAULT " +:+ escapeValue (getProperty options "default")])
    ++ keyword (truthy (getProperty options "type"))
         ("SET DATA TYPE " +:+ toString (applyTypeAdapters (getProperty options "type")))
    ++ (if truthy (getProperty options "notNull") then ["SET NOT NULL"]
        else keyword (bool_decide (getProperty options "notNull" = VBool false)
                      || truthy (getProperty options "allowNull"))
               "DROP NOT NULL").
Proof.
  unfold alterActions, keyword, push.
  repeat case_decide;
    destruct (truthy (getProperty options "type"));
    destruct (truthy (getProperty options "notNull"));
    destruct (bool_decide (getProperty options "notNull" = VBool false)
              || truthy (getProperty options "allowNull"));
    reflexivity.
Qed.

(** With a column name free of dollar signs and clauses free of line
    terminators, the statement is the clauses, each behind the ALTER prefix
    of the column, joined by a comma and a line feed. *)
Lemma alterColumn_clauses (table_name column_name : string) (options : Object) :
  noDollar column_name = true →
  alterActions options ≠ [] →
  Forall (λ action, singleLine action = true) (alterActions options) →
  alterColumn table_name column_name options
  = "ALTER TABLE " +:+ DQ +:+ table_name +:+ DQ +:+ LF
      +:+ join ("," +:+ LF)
            (map (λ action, "  ALTER " +:+ DQ +:+ column_name +:+ DQ +:+ " " +:+ action)
                 (alterActions options))
      +:+ ";".
Proof.
  intros Hname Hne Hlines. rewrite alterColumn_text.
  rewrite replaceLineStarts_join; [| | done | done].
  - erewrite map_ext; [done |]. intros action. simpl. by rewrite !append_assoc.
  - rewrite !noDollar_app, Hname. done.
Qed.

(** For every option record, with a column name free of dollar signs:
    every clause stands behind the ALTER prefix of the column (which
    [replace] inserts once more after a line terminator inside a clause). *)
Lemma alterColumn_clauses_lines (table_name column_name : string) (options : Object) :
  noDollar column_name = true →
  alterActions options ≠ [] →
  alterColumn table_name column_name options
  = "ALTER TABLE " +:+ DQ +:+ table_name +:+ DQ +:+ LF
      +:+ join ("," +:+ LF)
            (map (λ action,
                    ("  ALTER " +:+ DQ +:+ column_name +:+ DQ +:+ " ")
                      +:+ replaceAfterTerminators
                            ("  ALTER " +:+ DQ +:+ column_name +:+ DQ +:+ " ")
                            EmptyString action)
                 (alterActions options))
      +:+ ";".
Proof.
  intros Hname Hne. rewrite alterColumn_text.
  rewrite replaceLineStarts_join_lines; [done | | done].
  rewrite !noDollar_app, Hname. done.
Qed.

Lemma alterActions_none (options : Object) :
  getProperty options "default" = VUndefined →
  truthy (getProperty options "type") = false →
  getProperty options "notNull" = VUndefined →
  truthy (getProperty options "allowNull") = false →
  alterActions options = [].
Proof.
  intros Hdefault Htype HnotNull HallowNull.
  rewrite alterActions_precedence, Hdefault, Htype, HnotNull, HallowNull. done.
Qed.

(** Without any action, and with a column name free of dollar signs, the
    body is the ALTER prefix of the column alone. *)
Lemma alterColumn_without_actions (table_name column_name : string) (options : Object) :
  noDollar column_name = true →
  alterActions options = [] →
  alterColumn table_name column_name options
  = "ALTER TABLE " +:+ DQ +:+ table_name +:+ DQ +:+ LF
      +:+ "  ALTER " +:+ DQ +:+ column_name +:+ DQ +:+ " " +:+ ";".
Proof.
  intros Hname Hnone. rewrite alterColumn_text, Hnone.
  change (join ("," +:+ LF) []) with EmptyString.
  rewrite replaceLineStarts_empty; [by rewrite !append_assoc |].
  rewrite !noDollar_app, Hname. done.
Qed.

(** C5, at an input where the code leaves the claim: for the column
    [a$$b] the clauses are not prefixed with ALTER and that column name;
    [replace] reads the two dollar signs of the replacement text as one, so
    every clause is prefixed with ALTER and the name [a$b]. *)
Theorem alterColumn_clauses_dollar_column :
  alterColumn "users" "a$$b"
    (list_to_map [("type", VString "int"); ("notNull", VBool false)])
  = "ALTER TABLE " +:+ DQ +:+ "users" +:+ DQ +:+ LF
      +:+ "  ALTER " +:+ DQ +:+ "a$b" +:+ DQ +:+ " SET DATA TYPE integer," +:+ LF
      +:+ "  ALTER " +:+ DQ +:+ "a$b" +:+ DQ +:+ " DROP NOT NULL;".
Proof. by vm_compute. Qed.

(** C10, at an input where the code leaves the claim: for the column
    [a$$b] and a record without any of the fields, the body is not the
    ALTER prefix of that column; it names the column [a$b]. *)
Theorem alterColumn_dangling_dollar_column :
  alterColumn "users" "a$$b" ∅
  = "ALTER TABLE " +:+ DQ +:+ "users" +:+ DQ +:+ LF
      +:+ "  ALTER " +:+ DQ +:+ "a$b" +:+ DQ +:+ " ;".
Proof. by vm_compute. Qed.

(** ** Renames *)

(** C7: the reverse registered for [renameTable] is [undoRenameTable], and
    [undoRenameTable(x, y)] is the statement [renameTable(y, x)], which
    renames [y] back to [x]; the reverse registered for [renameColumn] is
    [undoRenameColumn], and [undoRenameColumn(t, c, n)] is the statement
    [renameColumn(t, n, c)], which renames [n] back to [c]. *)
Theorem rename_round_trip :
  reverse RenameTable = Some UndoRenameTable
  ∧ reverse RenameColumn = Some UndoRenameColumn
  ∧ (∀ x y : string,
       undoRenameTable x y = renameTable y x
       ∧ renameTable x y
         = "ALTER TABLE " +:+ DQ +:+ x +:+ DQ +:+ " RENAME TO " +:+ DQ +:+ y +:+ DQ +:+ ";"
       ∧ undoRenameTable x y
         = "ALTER TABLE " +:+ DQ +:+ y +:+ DQ +:+ " RENAME TO " +:+ DQ +:+ x +:+ DQ +:+ ";")
  ∧ (∀ t c n : string,
       undoRenameColumn t c n = renameColumn t n c
       ∧ renameColumn t c n
         = "ALTER TABLE " +:+ DQ +:+ t +:+ DQ +:+ " RENAME " +:+ DQ +:+ c +:+ DQ
             +:+ " TO " +:+ DQ +:+ n +:+ DQ +:+ ";"
       ∧ undoRenameColumn t c n
         = "ALTER TABLE " +:+ DQ +:+ t +:+ DQ +:+ " RENAME " +:+ DQ +:+ n +:+ DQ
             +:+ " TO " +:+ DQ +:+ c +:+ DQ +:+ ";").
Proof.
  split; [done |]. split; [done |]. split.
  - intros x y. unfold undoRenameTable, renameTable.
    rewrite !template_2. simpl templatePiece. by rewrite !append_assoc.
  - intros t c n. unfold undoRenameColumn, renameColumn. simpl template.
    by rewrite ?append_assoc.
Qed.


(** ** The fragment of one column *)

Lemma columnConstraints_order (options : Object) :
  columnConstraints options
  = keyword (truthy (getProperty options "unique")) "UNIQUE"
    ++ keyword (truthy (getProperty options "primaryKey")) "PRIMARY KEY"
    ++ keyword (truthy (getProperty options "notNull")) "NOT NULL"
    ++ keyword (truthy (getProperty options "check"))
         ("CHECK (" +:+ toString (getProperty options "check") +:+ ")")
    ++ (if truthy (getProperty options "references")
        then ["REFERENCES " +:+ toString (getProperty options "references")]
             ++ keyword (truthy (getProperty options "onDelete"))
                  ("ON DELETE " +:+ toString (getProperty options "onDelete"))
             ++ keyword (truthy (getProperty options "onUpdate"))
                  ("ON UPDATE " +:+ toString (getProperty options "onUpdate"))
        else []).
Proof.
  unfold columnConstraints, keyword, push.
  destruct (truthy (getProperty options "unique"));
    destruct (truthy (getProperty options "primaryKey"));
    destruct (truthy (getProperty options "notNull"));
    destruct (truthy (getProperty options "check"));
    destruct (truthy (getProperty options "references"));
    destruct (truthy (getProperty options "onDelete"));
    destruct (truthy (getProperty options "onUpdate"));
    reflexivity.
Qed.

(** The inline modifier is among the constraints exactly when the flag of
    the record is set. *)
Lemma primaryKey_inline (options : Object) :
  "PRIMARY KEY" ∈ columnConstraints options ↔ declaresPrimaryKey options = true.
Proof.
  rewrite columnConstraints_order. unfold declaresPrimaryKey, keyword.
  destruct (truthy (getProperty options "primaryKey")).
  - split; [done |]. intros _. set_solver.
  - split; [| done].
    destruct (truthy (getProperty options "unique"));
      destruct (truthy (getProperty options "notNull"));
      destruct (truthy (getProperty options "check"));
      destruct (truthy (getProperty options "references"));
      destruct (truthy (getProperty options "onDelete"));
      destruct (truthy (getProperty options "onUpdate"));
      simpl; intros Hin;
      repeat (apply elem_of_cons in Hin as [Hin | Hin]; [discriminate Hin |]);
      by apply elem_of_nil in Hin.
Qed.

(** ** The store *)

Lemma getProperty_assignType_type (obj : Object) :
  getProperty (assignType obj) "type" = applyTypeAdapters (getProperty obj "type").
Proof. unfold assignType, getProperty at 1. by rewrite lookup_insert_eq. Qed.

Lemma getProperty_assignType_ne (obj : Object) (key : string) :
  key ≠ "type" → getProperty (assignType obj) key = getProperty obj key.
Proof.
  intros Hne. unfold assignType, getProperty at 1 3.
  by rewrite lookup_insert_ne.
Qed.

Lemma assignType_idempotent (obj : Object) :
  assignType (assignType obj) = assignType obj.
Proof.
  unfold assignType at 1. rewrite getProperty_assignType_type.
  rewrite applyTypeAdapters_idempotent. unfold assignType.
  by rewrite insert_insert_eq.
Qed.

Lemma assignType_fmap_idempotent (o : option Object) :
  assignType <$> (assignType <$> o) = assignType <$> o.
Proof. destruct o as [obj|]; simpl; [by rewrite assignType_idempotent | done]. Qed.

(** One expansion leaves every record as it was or as line 31 makes it. *)
Lemma expandColumn_lookup (type_shorthands : gmap string loc) (h : Heap)
  (options : ColumnSpec) (l : loc) :
  fst (expandColumn type_shorthands h options) !! l = h !! l
  ∨ fst (expandColumn type_shorthands h options) !! l = assignType <$> h !! l.
Proof.
  unfold expandColumn.
  destruct (resolveOptions type_shorthands options) as [l'|obj|member]; simpl;
    [| by left | by left].
  rewrite lookup_alter. case_decide; [subst; by right | by left].
Qed.

Lemma expandColumns_lookup (type_shorthands : gmap string loc) (h : Heap)
  (columns : ColumnSet) (l : loc) :
  fst (expandColumns type_shorthands h columns) !! l = h !! l
  ∨ fst (expandColumns type_shorthands h columns) !! l = assignType <$> h !! l.
Proof.
  revert h. induction columns as [|[column_name options] columns IH]; intros h; simpl.
  - by left.
  - pose proof (expandColumn_lookup type_shorthands h options l) as Hstep.
    destruct (expandColumn type_shorthands h options) as [h1 expanded].
    specialize (IH h1).
    destruct (expandColumns type_shorthands h1 columns) as [h2 others].
    simpl in *.
    destruct IH as [-> | ->], Hstep as [-> | ->]; auto.
    right. apply assignType_fmap_idempotent.
Qed.

Lemma expandColumns_similar (type_shorthands : gmap string loc) (h : Heap)
  (columns : ColumnSet) :
  similar h (fst (expandColumns type_shorthands h columns)).
Proof.
  intros l.
  destruct (expandColumns_lookup type_shorthands h columns l) as [-> | ->];
    [done | by rewrite assignType_fmap_idempotent].
Qed.

(** What the columns are bound to does not depend on the store. *)
Lemma expandColumns_options (type_shorthands : gmap string loc) (h h' : Heap)
  (columns : ColumnSet) :
  snd (expandColumns type_shorthands h columns)
  = snd (expandColumns type_shorthands h' columns).
Proof.
  revert h h'. induction columns as [|[column_name options] columns IH];
    intros h h'; simpl; [done |].
  assert (snd (expandColumn type_shorthands h options)
          = snd (expandColumn type_shorthands h' options)) as Hstep.
  { unfold expandColumn. by destruct (resolveOptions type_shorthands options). }
  destruct (expandColumn type_shorthands h options) as [h1 expanded].
  destruct (expandColumn type_shorthands h' options) as [h1' expanded'].
  specialize (IH h1 h1').
  destruct (expandColumns type_shorthands h1 columns) as [h2 others].
  destruct (expandColumns type_shorthands h1' columns) as [h2' others'].
  simpl in *. by subst.
Qed.

(** A shared record that a column is bound to has gone through line 31
    when the first pass is over. *)
Lemma expandColumns_shared (type_shorthands : gmap string loc) (h : Heap)
  (columns : ColumnSet) (column_name : string) (l : loc) :
  (column_name, Shared l) ∈ snd (expandColumns type_shorthands h columns) →
  fst (expandColumns type_shorthands h columns) !! l = assignType <$> h !! l.
Proof.
  revert h. induction columns as [|[name options] columns IH]; intros h; simpl.
  - intros Hin. by apply elem_of_nil in Hin.
  - pose proof (expandColumn_lookup type_shorthands h options l) as Hstep.
    assert (snd (expandColumn type_shorthands h options) = Shared l →
            fst (expandColumn type_shorthands h options) !! l = assignType <$> h !! l)
      as Hhead.
    { unfold expandColumn.
      destruct (resolveOptions type_shorthands options) as [l'|obj|member]; simpl;
        [| done | done].
      intros [= ->]. rewrite lookup_alter. by case_decide. }
    destruct (expandColumn type_shorthands h options) as [h1 expanded].
    specialize (IH h1).
    pose proof (expandColumns_lookup type_shorthands h1 columns l) as Hrest.
    destruct (expandColumns type_shorthands h1 columns) as [h2 others].
    simpl in *. intros [[= -> <-] | Hin]%elem_of_cons.
    + specialize (Hhead eq_refl). rewrite Hhead in Hrest.
      destruct Hrest as [-> | ->]; [done | apply assignType_fmap_idempotent].
    + rewrite IH by done.
      destruct Hstep as [-> | ->]; [done | apply assignType_fmap_idempotent].
Qed.

Lemma expandedRecords_similar (h h' : Heap) (columns : ColumnSet)
  (extending_type_shorthands : gmap string loc) :
  similar h h' →
  expandedRecords h columns extending_type_shorthands
  = expandedRecords h' columns extending_type_shorthands.
Proof.
  intros Hsim. unfold expandedRecords.
  pose proof (expandColumns_options
                (extending_type_shorthands ∪ default_type_shorthands) h h' columns)
    as Hoptions.
  pose proof (expandColumns_shared
                (extending_type_shorthands ∪ default_type_shorthands) h columns)
    as Hshared.
  pose proof (expandColumns_shared
                (extending_type_shorthands ∪ default_type_shorthands) h' columns)
    as Hshared'.
  destruct (expandColumns _ h columns) as [h1 expanded].
  destruct (expandColumns _ h' columns) as [h1' expanded'].
  simpl in *. subst expanded'.
  apply map_ext_in. intros [column_name options] Hin%list_elem_of_In.
  f_equal. destruct options as [l|obj|member]; simpl; [| done | done].
  by rewrite (Hshared _ _ Hin), (Hshared' _ _ Hin), Hsim.
Qed.

Lemma parseColumns_text (h : Heap) (columns : ColumnSet) (table_name : Value)
  (extending_type_shorthands : gmap string loc) :
  snd (parseColumns h columns table_name extending_type_shorthands)
  = join ("," +:+ LF)
      (columnItems (expandedRecords h columns extending_type_shorthands) table_name).
Proof.
  unfold parseColumns, expandedRecords.
  by destruct (expandColumns _ h columns) as [h1 expanded].
Qed.

Lemma parseColumns_store (h : Heap) (columns : ColumnSet) (table_name : Value)
  (extending_type_shorthands : gmap string loc) :
  fst (parseColumns h columns table_name extending_type_shorthands)
  = fst (expandColumns (extending_type_shorthands ∪ default_type_shorthands) h columns).
Proof.
  unfold parseColumns.
  by destruct (expandColumns _ h columns) as [h1 expanded].
Qed.







(** ** Calls in sequence *)

Lemma similar_refl (h : Heap) : similar h h.
Proof. by intros l. Qed.

Lemma similar_sym (h h' : Heap) : similar h h' → similar h' h.
Proof. intros Hsim l. by rewrite Hsim. Qed.

Lemma similar_trans (h1 h2 h3 : Heap) :
  similar h1 h2 → similar h2 h3 → similar h1 h3.
Proof. intros H12 H23 l. by rewrite H12. Qed.

Lemma similar_deref (h h' : Heap) (l : loc) :
  similar h h' →
  assignType (deref h (Shared l)) = assignType (deref h' (Shared l)).
Proof.
  intros Hsim. specialize (Hsim l). simpl.
  destruct (h !! l) as [obj|], (h' !! l) as [obj'|]; simpl in *;
    by simplify_eq.
Qed.

Lemma parseColumns_similar (h h' : Heap) (columns : ColumnSet) (table_name : Value)
  (extending_type_shorthands : gmap string loc) :
  similar h h' →
  snd (parseColumns h columns table_name extending_type_shorthands)
  = snd (parseColumns h' columns table_name extending_type_shorthands).
Proof.
  intros Hsim. rewrite !parseColumns_text.
  by rewrite (expandedRecords_similar h h').
Qed.

Lemma parseColumns_preserves (h : Heap) (columns : ColumnSet) (table_name : Value)
  (extending_type_shorthands : gmap string loc) :
  similar h (fst (parseColumns h columns table_name extending_type_shorthands)).
Proof. rewrite parseColumns_store. apply expandColumns_similar. Qed.

Lemma alterActions_assignType (options : Object) :
  alterActions (assignType options) = alterActions options.
Proof.
  rewrite !alterActions_precedence.
  rewrite !getProperty_assignType_type, !getProperty_assignType_ne by done.
  by rewrite applyTypeAdapters_truthy, applyTypeAdapters_idempotent.
Qed.

Lemma alterColumn_assignType (table_name column_name : string) (options : Object) :
  alterColumn table_name column_name (assignType options)
  = alterColumn table_name column_name options.
Proof. unfold alterColumn. by rewrite alterActions_assignType. Qed.

Lemma create_text (type_shorthands : gmap string loc) (h : Heap)
  (table_name : string) (columns : ColumnSet) (options : Options) :
  snd (create type_shorthands h table_name columns options)
  = template ["CREATE TABLE " +:+ DQ; DQ +:+ " (" +:+ LF; LF +:+ ")"; ";"]
      [VString table_name;
       VString (replaceLineStarts
                  (snd (parseColumns h columns (VString table_name) type_shorthands))
                  "  ");
       VString (let record :=
                  deref (fst (parseColumns h columns (VString table_name)
                                type_shorthands)) options in
                if truthy (getProperty record "inherits")
                then " INHERITS " +:+ toString (getProperty record "inherits")
                else EmptyString)].
Proof.
  unfold create.
  by destruct (parseColumns h columns (VString table_name) type_shorthands).
Qed.

Lemma create_store (type_shorthands : gmap string loc) (h : Heap)
  (table_name : string) (columns : ColumnSet) (options : Options) :
  fst (create type_shorthands h table_name columns options)
  = fst (parseColumns h columns (VString table_name) type_shorthands).
Proof.
  unfold create.
  by destruct (parseColumns h columns (VString table_name) type_shorthands).
Qed.

Lemma addColumns_text (type_shorthands : gmap string loc) (h : Heap)
  (table_name : string) (columns : ColumnSet) :
  snd (addColumns type_shorthands h table_name columns)
  = template ["ALTER TABLE " +:+ DQ; DQ +:+ LF; ";"]
      [VString table_name;
       VString (replaceLineStarts
                  (snd (parseColumns h columns (VString table_name) type_shorthands))
                  "  ADD ")].
Proof.
  unfold addColumns.
  by destruct (parseColumns h columns (VString table_name) type_shorthands).
Qed.

Lemma addColumns_store (type_shorthands : gmap string loc) (h : Heap)
  (table_name : string) (columns : ColumnSet) :
  fst (addColumns type_shorthands h table_name columns)
  = fst (parseColumns h columns (VString table_name) type_shorthands).
Proof.
  unfold addColumns.
  by destruct (parseColumns h columns (VString table_name) type_shorthands).
Qed.

Lemma createType_text (h : Heap) (type_name : string) (columns : ColumnSet) :
  snd (createType h type_name (CompositeColumns columns))
  = template ["CREATE TYPE " +:+ DQ; DQ +:+ " AS (" +:+ LF; LF +:+ ");"]
      [VString type_name; VString (snd (parseColumns h columns VUndefined ∅))].
Proof. unfold createType. by destruct (parseColumns h columns VUndefined ∅). Qed.

Lemma createType_store (h : Heap) (type_name : string) (columns : ColumnSet) :
  fst (createType h type_name (CompositeColumns columns))
  = fst (parseColumns h columns VUndefined ∅).
Proof. unfold createType. by destruct (parseColumns h columns VUndefined ∅). Qed.

(** Similar stores show the same fields other than [type]. *)
Lemma similar_getProperty (h h' : Heap) (options : Options) (key : string) :
  similar h h' → key ≠ "type" →
  getProperty (deref h options) key = getProperty (deref h' options) key.
Proof.
  intros Hsim Hkey. destruct options as [l|obj|member]; [| done | done].
  rewrite <- (getProperty_assignType_ne (deref h (Shared l)) key) by done.
  rewrite <- (getProperty_assignType_ne (deref h' (Shared l)) key) by done.
  by rewrite (similar_deref h h' l).
Qed.

(** C8, at a session where the code leaves the claim: the object
    [cols = { a: 'int' }] is given to [dropColumns] twice, and between the
    two calls it is the option record of a column in a call of [create].
    Line 31 of that call gives the object an own property [type], so the
    second call of [dropColumns] returns a statement that drops a column
    [type] as well: two calls with the same arguments, two texts. *)
Theorem dropColumns_twice_around_create :
  let cols := 2%positive in
  let store : Store := <[ cols := [("a", VString "int")] ]> initialStore in
  let store' : Store :=
    <[ cols := [("a", VString "int"); ("type", VUndefined)] ]> initialStore in
  run store (CallDropColumnsOf "t" cols)
  = Some (store,
          VString ("ALTER TABLE " +:+ DQ +:+ "t" +:+ DQ +:+ LF
                     +:+ "  DROP " +:+ DQ +:+ "a" +:+ DQ +:+ ";"))
  ∧ fst <$> run store (CallCreate ∅ "u" (ColumnsLiteral [("x", SpecRecord cols)]) None)
    = Some store'
  ∧ run store' (CallDropColumnsOf "t" cols)
    = Some (store',
            VString ("ALTER TABLE " +:+ DQ +:+ "t" +:+ DQ +:+ LF
                       +:+ "  DROP " +:+ DQ +:+ "a" +:+ DQ +:+ "," +:+ LF
                       +:+ "  DROP " +:+ DQ +:+ "type" +:+ DQ +:+ ";")).
Proof.
  intros cols store store'.
  split; [| split]; (apply (bool_decide_unpack _); vm_compute; exact I).
Qed.


(** ** What [parseColumns] writes *)

(** C2, at inputs where the code leaves the claim: [parseColumns] writes
    the resolved type into the records it is given.  A record
    [{ type: 'int' }] of the caller's ColumnSet holds the type [integer]
    when the call has returned, and a record [{ type: 'float' }] of the
    caller's shorthand dictionary holds the type [real]. *)
Theorem parseColumns_overwrites_type :
  let caller := 2%positive in
  let h := <[ caller := {[ "type" := VString "int" ]} ]> initialHeap in
  let h' := <[ caller := {[ "type" := VString "float" ]} ]> initialHeap in
  h !! caller = Some {[ "type" := VString "int" ]}
  ∧ fst (parseColumns h [("age", SpecRecord caller)] (VString "users") ∅) !! caller
    = Some {[ "type" := VString "integer" ]}
  ∧ h' !! caller = Some {[ "type" := VString "float" ]}
  ∧ fst (parseColumns h' [("price", SpecString "money")] (VString "users")
           {[ "money" := caller ]}) !! caller
    = Some {[ "type" := VString "real" ]}.
Proof.
  intros caller h h'. rewrite !parseColumns_store.
  split; [| split; [| split]];
    (apply (bool_decide_unpack _); vm_compute; exact I).
Qed.

(** The only thing written is the [type] field: a record of the store is
    afterwards what it was, or what line 31 makes of it. *)
Lemma parseColumns_writes_type_only (h : Heap) (columns : ColumnSet)
  (table_name : Value) (extending_type_shorthands : gmap string loc) (l : loc) :
  fst (parseColumns h columns table_name extending_type_shorthands) !! l = h !! l
  ∨ fst (parseColumns h columns table_name extending_type_shorthands) !! l
    = assignType <$> h !! l.
Proof. rewrite parseColumns_store. apply expandColumns_lookup. Qed.

(** ** Columns given as strings *)


(** ** The composite key *)

Lemma expandColumns_names (type_shorthands : gmap string loc) (h : Heap)
  (columns : ColumnSet) :
  map fst (snd (expandColumns type_shorthands h columns)) = map fst columns.
Proof.
  revert h. induction columns as [|[column_name options] columns IH];
    intros h; simpl; [done |].
  destruct (expandColumn type_shorthands h options) as [h1 expanded].
  specialize (IH h1).
  destruct (expandColumns type_shorthands h1 columns) as [h2 others].
  simpl in *. by rewrite IH.
Qed.

Lemma expandedRecords_names (h : Heap) (columns : ColumnSet)
  (extending_type_shorthands : gmap string loc) :
  map fst (expandedRecords h columns extending_type_shorthands) = map fst columns.
Proof.
  unfold expandedRecords.
  pose proof (expandColumns_names
                (extending_type_shorthands ∪ default_type_shorthands) h columns)
    as Hnames.
  destruct (expandColumns _ h columns) as [h1 expanded]. simpl in *.
  rewrite <- Hnames, map_map. apply map_ext. by intros [column_name options].
Qed.

(** [filter()] drops the columns that do not declare a primary key, and
    the empty name. *)
Lemma primaryColumnsOf_collected (records : list (string * Object)) :
  primaryColumnsOf records = map VString (collectedKeys records).
Proof.
  unfold primaryColumnsOf, collectedKeys, primaryKeyNames, declaresPrimaryKey.
  induction records as [|[column_name options] records IH]; [done |].
  cbn [map]. rewrite !filter_cons. cbn [fst snd].
  destruct (truthy (getProperty options "primaryKey")) eqn:Hkey.
  - rewrite (decide_True (P := true = true)) by done.
    cbn [map fst]. rewrite filter_cons.
    destruct (decide (column_name = EmptyString)) as [-> | Hname].
    + rewrite decide_False by (by vm_compute).
      rewrite decide_False by (by intros Hfalse). apply IH.
    + rewrite decide_True by (cbn [truthy]; by rewrite bool_decide_eq_false_2).
      rewrite decide_True by done. cbn [map]. f_equal. apply IH.
  - rewrite (decide_False (P := truthy VNull = true)) by (by vm_compute).
    rewrite (decide_False (P := false = true)) by done. apply IH.
Qed.

Lemma collectedKeys_declared (records : list (string * Object)) :
  Forall (λ name, name ≠ EmptyString) (primaryKeyNames records) →
  collectedKeys records = primaryKeyNames records.
Proof.
  intros Hnames. unfold collectedKeys.
  induction (primaryKeyNames records) as [|name names IH]; [done |].
  apply Forall_cons in Hnames as [Hname Hnames].
  rewrite filter_cons, decide_True by done. f_equal. by apply IH.
Qed.

Lemma primaryColumnsOf_length (records : list (string * Object)) :
  length (primaryColumnsOf records) ≤ length (primaryKeyNames records).
Proof.
  unfold primaryColumnsOf, primaryKeyNames, declaresPrimaryKey.
  induction records as [|[column_name options] records IH]; [done |].
  rewrite map_cons, !filter_cons. simpl.
  destruct (truthy (getProperty options "primaryKey")); simpl.
  - case_decide; simpl; lia.
  - done.
Qed.

Lemma primaryKeyConstraint_names (table_name : Value) (names : list string) :
  primaryKeyConstraint table_name (map VString names)
  = compositeKeyConstraint table_name names.
Proof.
  unfold primaryKeyConstraint, compositeKeyConstraint. by rewrite quote_strings.
Qed.

(** X25: the composite-key rule of [parseColumns].  If more than one column
    declares a primary key and none of these columns has the empty name,
    the fragment of no column carries the inline PRIMARY KEY modifier and
    exactly one constraint, the primary key constraint named after the
    table, follows the fragments and lists the declaring columns in the
    order of the ColumnSet.  If exactly one column declares a primary key,
    whatever the names, its fragment carries the inline modifier and no
    constraint follows the fragments. *)
Theorem parseColumns_composite_key (h : Heap) (columns : ColumnSet)
  (table_name : Value) (extending_type_shorthands : gmap string loc) :
  CompositeKeyInvariant h columns table_name extending_type_shorthands.
Proof.
  unfold CompositeKeyInvariant.
  set (records := expandedRecords h columns extending_type_shorthands).
  split; [apply parseColumns_text |]. split.
  - intros Hmany Hnames. split.
    + unfold columnItems.
      rewrite primaryColumnsOf_collected, (collectedKeys_declared _ Hnames).
      rewrite length_map.
      replace (1 <? length (primaryKeyNames records))%nat with true
        by (symmetry; by apply Nat.ltb_lt).
      rewrite map_map, primaryKeyConstraint_names. f_equal.
      apply map_ext. by intros [column_name options].
    + apply Forall_forall. intros record _ Hin.
      apply primaryKey_inline in Hin. unfold declaresPrimaryKey in Hin.
      unfold getProperty in Hin. by rewrite lookup_insert_eq in Hin.
  - intros Hone. split.
    + unfold columnItems.
      pose proof (primaryColumnsOf_length records) as Hle.
      replace (1 <? length (primaryColumnsOf records))%nat with false
        by (symmetry; apply Nat.ltb_ge; lia).
      rewrite app_nil_r. apply map_ext. by intros [column_name options].
    + apply Forall_forall. intros record _ Hdeclares. by apply primaryKey_inline.
Qed.

(** C1, at an input where the code leaves the claim: in the ColumnSet
    [{ '': 'id', b: 'id' }] two columns declare a primary key, yet the
    fragments of both carry the inline PRIMARY KEY modifier and no
    constraint follows them.  [filter()] at line 38 drops the empty name
    with the nulls, so one primary column is counted. *)
Theorem parseColumns_composite_key_empty_name (table_name : Value) :
  let columns := [(EmptyString, SpecString "id"); ("b", SpecString "id")] in
  primaryKeyNames (expandedRecords initialHeap columns ∅) = [EmptyString; "b"]
  ∧ primaryColumnsOf (expandedRecords initialHeap columns ∅) = [VString "b"]
  ∧ snd (parseColumns initialHeap columns table_name ∅)
    = DQ +:+ DQ +:+ " serial PRIMARY KEY," +:+ LF
        +:+ DQ +:+ "b" +:+ DQ +:+ " serial PRIMARY KEY".
Proof. intros columns. split; [| split]; by vm_compute. Qed.

(** C3, at an input where the code leaves the claim: in the ColumnSet
    [{ '': 'id', b: { type: 'int', unique: true, primaryKey: true,
    notNull: true } }] two columns declare a primary key, so neither is the
    sole primary-key column, yet the fragment of each holds PRIMARY KEY
    among its constraints.  The rest of the fragments is as claimed: the
    quoted name, the resolved type, the keywords in their order. *)
Theorem parseColumns_inline_key_not_sole (table_name : Value) :
  let b := 2%positive in
  let h :=
    <[ b := list_to_map [("type", VString "int"); ("unique", VBool true);
                         ("primaryKey", VBool true); ("notNull", VBool true)] ]>
      initialHeap in
  let columns := [(EmptyString, SpecString "id"); ("b", SpecRecord b)] in
  primaryKeyNames (expandedRecords h columns ∅) = [EmptyString; "b"]
  ∧ snd (parseColumns h columns table_name ∅)
    = DQ +:+ DQ +:+ " serial PRIMARY KEY," +:+ LF
        +:+ DQ +:+ "b" +:+ DQ +:+ " integer UNIQUE PRIMARY KEY NOT NULL".
Proof. intros b h columns. split; by vm_compute. Qed.

End Properties.

(** ** Concrete inputs *)

(** The composite-key rule on a table with two [id] columns. *)
Lemma parseColumns_composite_key_witness :
  1 < length (primaryKeyNames
                (expandedRecords initialHeap
                   [("a", SpecString "id"); ("b", SpecString "id")] ∅))
  ∧ CompositeKeyInvariant (H := sampleEnvironment) initialHeap
      [("a", SpecString "id"); ("b", SpecString "id")] (VString "users") ∅.
Proof.
  split; [vm_compute; lia |].
  exact (parseColumns_composite_key (H := sampleEnvironment) initialHeap
           [("a", SpecString "id"); ("b", SpecString "id")] (VString "users") ∅).
Defined.



(** C9 as stated fails for an empty sequence of names: the statement holds
    a DROP clause although there is no column. *)
Lemma dropColumns_no_columns :
  dropColumns (H := sampleEnvironment) "users" (DropNames [])
  = "ALTER TABLE " +:+ DQ +:+ "users" +:+ DQ +:+ LF +:+ "  DROP ;"
  ∧ dropColumns (H := sampleEnvironment) "users" (DropNames [])
    ≠ dropStatement "users" (droppedNames (DropNames [])).
Proof.
  split; [by vm_compute |].
  intros Heq. vm_compute in Heq. discriminate Heq.
Qed.

Lemma dropColumns_one_clause_per_column_witness :
  droppedNames (DropNames ["name"; "age"]) ≠ []
  ∧ Forall (λ name, singleLine name = true) (droppedNames (DropNames ["name"; "age"]))
  ∧ dropColumns (H := sampleEnvironment) "users" (DropNames ["name"; "age"])
    = dropStatement "users" (droppedNames (DropNames ["name"; "age"])).
Proof.
  split; [done |]. split; [by repeat constructor |].
  refine (proj1 (dropColumns_one_clause_per_column (H := sampleEnvironment) "users"
                   (DropNames ["name"; "age"]) _ _)).
  - done.
  - by repeat constructor.
Defined.

(** The examples of the specification. *)

Example create_users :
  let name := 2%positive in
  let h := <[ name := list_to_map [("type", VString "string"); ("notNull", VBool true)] ]>
             initialHeap in
  snd (create (H := sampleEnvironment) ∅ h "users"
         [("id", SpecString "id"); ("name", SpecRecord name)] (Fresh ∅))
  = "CREATE TABLE " +:+ DQ +:+ "users" +:+ DQ +:+ " (" +:+ LF
      +:+ "  " +:+ DQ +:+ "id" +:+ DQ +:+ " serial PRIMARY KEY," +:+ LF
      +:+ "  " +:+ DQ +:+ "name" +:+ DQ +:+ " text NOT NULL" +:+ LF
      +:+ ");".
Proof. by vm_compute. Qed.

Example dropColumns_users :
  dropColumns (H := sampleEnvironment) "users" (DropNames ["name"; "age"])
  = "ALTER TABLE " +:+ DQ +:+ "users" +:+ DQ +:+ LF
      +:+ "  DROP " +:+ DQ +:+ "name" +:+ DQ +:+ "," +:+ LF
      +:+ "  DROP " +:+ DQ +:+ "age" +:+ DQ +:+ ";".
Proof. by vm_compute. Qed.

Example alterColumn_users_age :
  alterColumn (H := sampleEnvironment) "users" "age"
    (list_to_map [("type", VString "int"); ("notNull", VBool false)])
  = "ALTER TABLE " +:+ DQ +:+ "users" +:+ DQ +:+ LF
      +:+ "  ALTER " +:+ DQ +:+ "age" +:+ DQ +:+ " SET DATA TYPE integer," +:+ LF
      +:+ "  ALTER " +:+ DQ +:+ "age" +:+ DQ +:+ " DROP NOT NULL;".
Proof. by vm_compute. Qed.

(** No field at all: the prefix of the column stands alone. *)
Example alterColumn_users_age_nothing :
  alterColumn (H := sampleEnvironment) "users" "age" ∅
  = "ALTER TABLE " +:+ DQ +:+ "users" +:+ DQ +:+ LF
      +:+ "  ALTER " +:+ DQ +:+ "age" +:+ DQ +:+ " ;".
Proof. by vm_compute. Qed.

(** A composite key: two columns of the [id] shorthand. *)
Example create_composite_key :
  snd (create (H := sampleEnvironment) ∅ initialHeap "pairs"
         [("a", SpecString "id"); ("b", SpecString "id")] (Fresh ∅))
  = "CREATE TABLE " +:+ DQ +:+ "pairs" +:+ DQ +:+ " (" +:+ LF
      +:+ "  " +:+ DQ +:+ "a" +:+ DQ +:+ " serial," +:+ LF
      +:+ "  " +:+ DQ +:+ "b" +:+ DQ +:+ " serial," +:+ LF
      +:+ "  CONSTRAINT " +:+ DQ +:+ "pairs_pkey" +:+ DQ
      +:+ " PRIMARY KEY (" +:+ DQ +:+ "a" +:+ DQ +:+ ", " +:+ DQ +:+ "b" +:+ DQ +:+ ")" +:+ LF
      +:+ ");".
Proof. by vm_compute. Qed.

(** [replace(/^/gm, ...)] also matches inside a name or a clause that holds
    a line terminator. *)

Example dropColumns_line_terminator :
  dropColumns (H := sampleEnvironment) "users" (DropNames ["a" +:+ LF +:+ "b"])
  = "ALTER TABLE " +:+ DQ +:+ "users" +:+ DQ +:+ LF
      +:+ "  DROP " +:+ DQ +:+ "a" +:+ LF
      +:+ "  DROP b" +:+ DQ +:+ ";".
Proof. by vm_compute. Qed.

Example alterColumn_line_terminator :
  alterColumn (H := sampleEnvironment) "users" "c"
    {[ "type" := VString ("character" +:+ LF +:+ "varying") ]}
  = "ALTER TABLE " +:+ DQ +:+ "users" +:+ DQ +:+ LF
      +:+ "  ALTER " +:+ DQ +:+ "c" +:+ DQ +:+ " SET DATA TYPE character" +:+ LF
      +:+ "  ALTER " +:+ DQ +:+ "c" +:+ DQ +:+ " varying;".
Proof. by vm_compute. Qed.

(** A column given as the string [constructor]: the lookup in the merged
    dictionary finds the inherited member, which has no [type]. *)
Example expandColumn_constructor :
  expandColumn (∅ ∪ default_type_shorthands) initialHeap (SpecString "constructor")
  = (initialHeap, Builtin "constructor")
  ∧ getProperty (deref initialHeap (Builtin "constructor")) "type" = VUndefined.
Proof. split; reflexivity. Qed.

(** A ColumnSet that is an object of the store: [create] enumerates it, in
    the order of its keys. *)
Example create_shared_columns :
  let cols := 2%positive in
  let store : Store :=
    <[ cols := [("a", VString "int"); ("id", VString "id")] ]> initialStore in
  run (H := sampleEnvironment) store (CallCreate ∅ "t" (ColumnsShared cols) None)
  = Some (store,
          VString ("CREATE TABLE " +:+ DQ +:+ "t" +:+ DQ +:+ " (" +:+ LF
                     +:+ "  " +:+ DQ +:+ "a" +:+ DQ +:+ " integer," +:+ LF
                     +:+ "  " +:+ DQ +:+ "id" +:+ DQ +:+ " serial PRIMARY KEY" +:+ LF
                     +:+ ");")).
Proof. intros cols store. apply (bool_decide_unpack _). vm_compute. exact I. Qed.

(** A column given as [null]: line 31 raises. *)
Example create_null_column :
  run (H := sampleEnvironment) (<[ 2%positive := [("a", VNull)] ]> initialStore)
    (CallCreate ∅ "t" (ColumnsShared 2%positive) None)
  = None.
Proof. reflexivity. Qed.

(** * Further properties of the builders *)

Section Coverage.
Context `{Environment}.

(** ** What [parseColumns] does to the store *)

Lemma expandColumn_store (type_shorthands : gmap string loc) (h : Heap)
  (options : ColumnSpec) :
  fst (expandColumn type_shorthands h options)
  = match referencedRecord type_shorthands options with
    | Some l => alter assignType l h
    | None => h
    end.
Proof.
  unfold expandColumn, resolveOptions, lookupShorthand, referencedRecord.
  destruct options as [|s|l]; [done | | done].
  destruct (type_shorthands !! s); [done |]. by destruct (inherited s).
Qed.

(** The store after the first pass, record by record. *)
Lemma expandColumns_store (type_shorthands : gmap string loc) (h : Heap)
  (columns : ColumnSet) (l : loc) :
  fst (expandColumns type_shorthands h columns) !! l
  = if decide (l ∈ referencedRecords type_shorthands columns)
    then assignType <$> h !! l else h !! l.
Proof.
  revert h. induction columns as [|[column_name options] columns IH]; intros h.
  - cbn [expandColumns fst]. by case_decide; [by apply elem_of_nil in H0 |].
  - pose proof (expandColumn_store type_shorthands h options) as Hstep.
    cbn [expandColumns].
    destruct (expandColumn type_shorthands h options) as [h1 expanded].
    specialize (IH h1).
    destruct (expandColumns type_shorthands h1 columns) as [h2 others].
    cbn [fst snd] in *. rewrite IH. subst h1.
    unfold referencedRecords. cbn [omap list_omap snd].
    fold (referencedRecords type_shorthands columns).
    destruct (referencedRecord type_shorthands options) as [l'|].
    + rewrite lookup_alter.
      destruct (decide (l' = l)) as [-> | Hne].
      * rewrite (decide_True (P := l ∈ l :: _)) by (apply elem_of_cons; by left).
        case_decide; [apply assignType_fmap_idempotent | done].
      * destruct (decide (l ∈ referencedRecords type_shorthands columns)) as [Hin | Hout].
        -- by rewrite decide_True by (apply elem_of_cons; by right).
        -- rewrite decide_False; [done |].
           intros [-> | Hin]%elem_of_cons; [done | by apply Hout].
    + done.
Qed.



(** X3: [parseColumns] creates and removes no record of the store, and in
    no record does it add, change or remove a field other than [type]. *)
Theorem parseColumns_other_fields_kept (h : Heap) (columns : ColumnSet)
  (table_name : Value) (extending_type_shorthands : gmap string loc)
  (l : loc) (key : string) :
  key ≠ "type" →
  (λ obj : Object, obj !! key)
    <$> fst (parseColumns h columns table_name extending_type_shorthands) !! l
  = (λ obj : Object, obj !! key) <$> h !! l.
Proof.
  intros Hkey. rewrite parseColumns_store, expandColumns_store.
  case_decide; [| done].
  destruct (h !! l) as [obj|]; [| done]. simpl. f_equal.
  unfold assignType. by rewrite lookup_insert_ne.
Qed.



(** ** The array that [parseColumns] joins *)

Lemma columnDefinition_starts (options : Object) (column_name : string) :
  ∃ rest, columnDefinition options column_name
          = DQ +:+ column_name +:+ DQ +:+ " " +:+ rest.
Proof.
  unfold columnDefinition. cbn [template].
  eexists. rewrite !append_assoc. reflexivity.
Qed.

(** The array is one fragment per record, followed by at most one item. *)
Lemma columnItems_shape (records : list (string * Object)) (table_name : Value) :
  ∃ emitted tail,
    columnItems records table_name
    = map (λ record, columnDefinition (snd record) (fst record)) emitted ++ tail
    ∧ map fst emitted = map fst records
    ∧ length tail ≤ 1.
Proof.
  unfold columnItems.
  destruct (1 <? length (primaryColumnsOf records))%nat.
  - exists (map (λ record, (fst record, <[ "primaryKey" := VBool false ]> (snd record)))
             records),
      [primaryKeyConstraint table_name (primaryColumnsOf records)].
    split; [| split; [| done]].
    + f_equal. rewrite !map_map. apply map_ext. by intros [column_name options].
    + rewrite map_map. by apply map_ext.
  - exists records, []. split; [| split; [done | simpl; lia]].
    f_equal. apply map_ext. by intros [column_name options].
Qed.

(** X5: [parseColumns] emits the fragments in the order of the ColumnSet:
    the item at the position of a column starts with the quoted name of
    that column and a space; and there is one item per column, plus at most
    one more. *)
Theorem parseColumns_fragment_per_column (h : Heap) (columns : ColumnSet)
  (table_name : Value) (extending_type_shorthands : gmap string loc)
  (i : nat) (column : string * ColumnSpec) :
  columns !! i = Some column →
  (∃ rest,
     columnItems (expandedRecords h columns extending_type_shorthands) table_name !! i
     = Some (DQ +:+ fst column +:+ DQ +:+ " " +:+ rest))
  ∧ length columns
    ≤ length (columnItems (expandedRecords h columns extending_type_shorthands)
                table_name)
  ∧ length (columnItems (expandedRecords h columns extending_type_shorthands)
              table_name)
    ≤ S (length columns).
Proof.
  intros Hcolumn.
  destruct (columnItems_shape
              (expandedRecords h columns extending_type_shorthands) table_name)
    as (emitted & tail & -> & Hnames & Htail).
  rewrite expandedRecords_names in Hnames.
  assert (length emitted = length columns) as Hlength.
  { apply (f_equal length) in Hnames. by rewrite !length_map in Hnames. }
  rewrite length_app, length_map, Hlength.
  split; [| lia].
  assert (fst <$> emitted !! i = Some (fst column)) as Hname.
  { change (map fst emitted) with (fst <$> emitted) in Hnames.
    change (map fst columns) with (fst <$> columns) in Hnames.
    rewrite <- list_lookup_fmap, Hnames, list_lookup_fmap. by rewrite Hcolumn. }
  destruct (emitted !! i) as [[column_name options]|] eqn:Hemitted; [| done].
  injection Hname as <-.
  destruct (columnDefinition_starts options column_name) as [rest Hrest].
  exists rest.
  change (map ?f emitted) with (f <$> emitted).
  rewrite lookup_app_l.
  - by rewrite list_lookup_fmap, Hemitted, <- Hrest.
  - rewrite length_fmap. by apply lookup_lt_Some in Hemitted.
Qed.

(** X6: when no column declares a primary key, no fragment carries the
    inline PRIMARY KEY modifier and nothing follows the fragments. *)
Theorem parseColumns_no_primary_key (h : Heap) (columns : ColumnSet)
  (table_name : Value) (extending_type_shorthands : gmap string loc) :
  primaryKeyNames (expandedRecords h columns extending_type_shorthands) = [] →
  columnItems (expandedRecords h columns extending_type_shorthands) table_name
  = map (λ record, columnDefinition (snd record) (fst record))
      (expandedRecords h columns extending_type_shorthands)
  ∧ Forall (λ record, "PRIMARY KEY" ∉ columnConstraints (snd record))
      (expandedRecords h columns extending_type_shorthands).
Proof.
  set (records := expandedRecords h columns extending_type_shorthands).
  intros Hnone. split.
  - unfold columnItems.
    pose proof (primaryColumnsOf_length records) as Hle. rewrite Hnone in Hle.
    replace (1 <? length (primaryColumnsOf records))%nat with false
      by (symmetry; apply Nat.ltb_ge; simpl in Hle; lia).
    rewrite app_nil_r. apply map_ext. by intros [column_name options].
  - apply Forall_forall. intros record Hin Hinline.
    apply primaryKey_inline in Hinline.
    assert (fst record ∈ primaryKeyNames records) as Hname.
    { unfold primaryKeyNames. change (map fst ?l) with (fst <$> l).
      apply list_elem_of_fmap_2. by apply list_elem_of_filter. }
    rewrite Hnone in Hname. by apply elem_of_nil in Hname.
Qed.

(** X7: the table name enters the text of [parseColumns] only through the
    constraint of a composite key: with at most one column that declares a
    primary key, the text is the same for every table name. *)
Theorem parseColumns_table_name_unused (h : Heap) (columns : ColumnSet)
  (table_name table_name' : Value) (extending_type_shorthands : gmap string loc) :
  length (primaryKeyNames (expandedRecords h columns extending_type_shorthands)) ≤ 1 →
  snd (parseColumns h columns table_name extending_type_shorthands)
  = snd (parseColumns h columns table_name' extending_type_shorthands).
Proof.
  intros Hle. rewrite !parseColumns_text. f_equal. unfold columnItems.
  pose proof (primaryColumnsOf_length
                (expandedRecords h columns extending_type_shorthands)) as Hle'.
  replace (1 <? length (primaryColumnsOf
                          (expandedRecords h columns extending_type_shorthands)))%nat
    with false by (symmetry; apply Nat.ltb_ge; lia).
  done.
Qed.


(** ** [create] and [addColumns] *)

Lemma columnItems_not_empty (h : Heap) (columns : ColumnSet) (table_name : Value)
  (extending_type_shorthands : gmap string loc) :
  columns ≠ [] →
  columnItems (expandedRecords h columns extending_type_shorthands) table_name ≠ [].
Proof.
  intros Hne Hnone.
  destruct (columnItems_shape
              (expandedRecords h columns extending_type_shorthands) table_name)
    as (emitted & tail & Hitems & Hnames & _).
  rewrite Hnone in Hitems. symmetry in Hitems.
  apply app_eq_nil in Hitems as [Hemitted _]. apply map_eq_nil in Hemitted.
  subst emitted. rewrite expandedRecords_names in Hnames.
  destruct columns; [done | discriminate Hnames].
Qed.

(** The caller's [options] show the same [inherits] before and after. *)
Lemma create_inherits_before (h : Heap) (columns : ColumnSet) (table_name : Value)
  (type_shorthands : gmap string loc) (options : Options) :
  getProperty (deref (fst (parseColumns h columns table_name type_shorthands)) options)
    "inherits"
  = getProperty (deref h options) "inherits".
Proof.
  symmetry. apply similar_getProperty; [apply parseColumns_preserves | done].
Qed.

(** X8: [create] puts every item of [parseColumns] on a line of its own,
    indented by two spaces, between the parentheses of one CREATE TABLE
    statement, and appends an INHERITS clause exactly when the [inherits]
    option is truthy.  This holds when there is at least one column and no
    item holds a line terminator. *)
Theorem create_indents_items (type_shorthands : gmap string loc) (h : Heap)
  (table_name : string) (columns : ColumnSet) (options : Options) :
  columns ≠ [] →
  Forall (λ item, singleLine item = true)
    (columnItems (expandedRecords h columns type_shorthands) (VString table_name)) →
  snd (create type_shorthands h table_name columns options)
  = "CREATE TABLE " +:+ DQ +:+ table_name +:+ DQ +:+ " (" +:+ LF
      +:+ join ("," +:+ LF)
            (map (λ item, "  " +:+ item)
               (columnItems (expandedRecords h columns type_shorthands)
                  (VString table_name)))
      +:+ LF +:+ ")"
      +:+ (if truthy (getProperty (deref h options) "inherits")
           then " INHERITS " +:+ toString (getProperty (deref h options) "inherits")
           else EmptyString)
      +:+ ";".
Proof.
  intros Hne Hlines. rewrite create_text. cbn zeta.
  rewrite create_inherits_before, parseColumns_text.
  rewrite replaceLineStarts_join;
    [| done | by apply columnItems_not_empty | done].
  cbn [template templatePiece]. by rewrite !append_assoc.
Qed.

(** X9: [addColumns] puts every item of [parseColumns], the constraint of a
    composite key included, on a line of its own behind the keyword ADD,
    under one ALTER TABLE statement.  This holds when there is at least one
    column and no item holds a line terminator. *)
Theorem addColumns_prefixes_items (type_shorthands : gmap string loc) (h : Heap)
  (table_name : string) (columns : ColumnSet) :
  columns ≠ [] →
  Forall (λ item, singleLine item = true)
    (columnItems (expandedRecords h columns type_shorthands) (VString table_name)) →
  snd (addColumns type_shorthands h table_name columns)
  = "ALTER TABLE " +:+ DQ +:+ table_name +:+ DQ +:+ LF
      +:+ join ("," +:+ LF)
            (map (λ item, "  ADD " +:+ item)
               (columnItems (expandedRecords h columns type_shorthands)
                  (VString table_name)))
      +:+ ";".
Proof.
  intros Hne Hlines. rewrite addColumns_text, parseColumns_text.
  rewrite replaceLineStarts_join;
    [| done | by apply columnItems_not_empty | done].
  cbn [template templatePiece]. by rewrite !append_assoc.
Qed.

(** X10: for an empty ColumnSet no error is raised and the store is left
    alone: [create] returns a statement whose parentheses hold the
    indentation alone, and [addColumns] a statement with a single ADD that
    adds nothing. *)
Theorem builders_without_columns (type_shorthands : gmap string loc) (h : Heap)
  (table_name : string) (options : Options) :
  create type_shorthands h table_name [] options
  = (h, "CREATE TABLE " +:+ DQ +:+ table_name +:+ DQ +:+ " (" +:+ LF
          +:+ "  " +:+ LF +:+ ")"
          +:+ (if truthy (getProperty (deref h options) "inherits")
               then " INHERITS " +:+ toString (getProperty (deref h options) "inherits")
               else EmptyString)
          +:+ ";")
  ∧ addColumns type_shorthands h table_name []
    = (h, "ALTER TABLE " +:+ DQ +:+ table_name +:+ DQ +:+ LF +:+ "  ADD ;").
Proof.
  split.
  - unfold create, parseColumns. cbn [expandColumns map columnItems].
    reflexivity.
  - unfold addColumns, parseColumns. cbn [expandColumns map columnItems].
    reflexivity.
Qed.

(** ** [createType] *)

Lemma join_quoted_labels (labels : list string) :
  labels ≠ [] →
  "'" +:+ join "', '" labels +:+ "'"
  = join ", " (map (λ label, "'" +:+ label +:+ "'") labels).
Proof.
  induction labels as [|label labels IH]; [done |]. intros _.
  destruct labels as [|label' labels]; [done |].
  change (join "', '" (label :: label' :: labels))
    with (label +:+ "', '" +:+ join "', '" (label' :: labels)).
  change (join ", " (map (λ l, "'" +:+ l +:+ "'") (label :: label' :: labels)))
    with (("'" +:+ label +:+ "'") +:+ ", "
            +:+ join ", " (map (λ l, "'" +:+ l +:+ "'") (label' :: labels))).
  rewrite <- IH by done. by rewrite !append_assoc.
Qed.

(** X11: for a non-empty array of labels [createType] returns one CREATE
    TYPE ... AS ENUM statement that lists every label between single
    quotes, in the order given, separated by a comma and a space; the
    labels are taken as they are and the store is not touched. *)
Theorem createType_enum_labels (h : Heap) (type_name : string) (labels : list string) :
  labels ≠ [] →
  createType h type_name (EnumLabels labels)
  = (h, "CREATE TYPE " +:+ DQ +:+ type_name +:+ DQ +:+ " AS ENUM ("
          +:+ join ", " (map (λ label, "'" +:+ label +:+ "'") labels)
          +:+ ");").
Proof.
  intros Hne. unfold createType. f_equal.
  rewrite <- join_quoted_labels by done.
  cbn [template templatePiece]. by rewrite !append_assoc.
Qed.

(** X12: an empty array of labels raises no error: the statement is the one
    of the array that holds the empty label alone, an enum of one empty
    label. *)
Theorem createType_enum_no_labels (h : Heap) (type_name : string) :
  createType h type_name (EnumLabels [])
  = createType h type_name (EnumLabels [EmptyString])
  ∧ createType h type_name (EnumLabels [])
    = (h, "CREATE TYPE " +:+ DQ +:+ type_name +:+ DQ +:+ " AS ENUM ('');").
Proof.
  split; reflexivity.
Qed.

(** ** Constraints and the reverse functions *)

(** X23: given a ColumnSet, [createType] puts the column fragments between
    the parentheses of one CREATE TYPE ... AS statement, one per line and,
    unlike [create], not indented; the columns are expanded against the
    built-in shorthands alone.  This holds when at most one column declares
    a primary key. *)
Theorem createType_composite_fragments (h : Heap) (type_name : string)
  (columns : ColumnSet) :
  length (primaryKeyNames (expandedRecords h columns ∅)) ≤ 1 →
  snd (createType h type_name (CompositeColumns columns))
  = "CREATE TYPE " +:+ DQ +:+ type_name +:+ DQ +:+ " AS (" +:+ LF
      +:+ join ("," +:+ LF)
            (map (λ record, columnDefinition (snd record) (fst record))
               (expandedRecords h columns ∅))
      +:+ LF +:+ ");".
Proof.
  intros Hle. rewrite createType_text, parseColumns_text, template_2.
  pose proof (primaryColumnsOf_length (expandedRecords h columns ∅)) as Hle'.
  unfold columnItems.
  replace (1 <? length (primaryColumnsOf (expandedRecords h columns ∅)))%nat
    with false by (symmetry; apply Nat.ltb_ge; lia).
  rewrite app_nil_r. cbn [templatePiece].
  rewrite (map_ext (λ '(column_name, options), columnDefinition options column_name)
             (λ record, columnDefinition (snd record) (fst record)))
    by (by intros [column_name options]).
  by rewrite !append_assoc.
Qed.

(** X13: a constraint name that is falsy (undefined, null, the empty
    string) is left out of the statement of [addConstraint], which then
    adds the bare expression. *)
Theorem addConstraint_unnamed (table_name : string) (constraint_name : Value)
  (expression : string) :
  truthy constraint_name = false →
  addConstraint table_name constraint_name expression
  = "ALTER TABLE " +:+ DQ +:+ table_name +:+ DQ +:+ " ADD " +:+ expression +:+ ";".
Proof.
  intros Hfalsy. unfold addConstraint. rewrite Hfalsy.
  cbn [template templatePiece]. by rewrite !append_assoc.
Qed.

(** X14: the reverse functions do not chain and do not collide: a builder
    registered as the reverse of another has no reverse itself, and it is
    the reverse of that builder only. *)
Theorem reverse_is_final (builder undo : Builder) :
  reverse builder = Some undo →
  reverse undo = None
  ∧ ∀ other, reverse other = Some undo → other = builder.
Proof.
  intros Hreverse. split.
  - by destruct builder; simplify_eq/=.
  - intros other Hother. by destruct builder, other; simplify_eq/=.
Qed.


(** X15: given a ColumnSet, [dropColumns] looks at its keys only: the
    statement is the one for the array of the keys, so two ColumnSets with
    the same keys in the same order give the same statement, whatever the
    columns are specified as. *)
Theorem dropColumns_keys_only (table_name : string) (columns columns' : ColumnSet) :
  map fst columns = map fst columns' →
  dropColumns table_name (DropColumnSet columns)
  = dropColumns table_name (DropColumnSet columns')
  ∧ dropColumns table_name (DropColumnSet columns)
    = dropColumns table_name (DropNames (map fst columns)).
Proof.
  intros Hkeys. rewrite !dropColumns_text. cbn [droppedNames]. by rewrite Hkeys.
Qed.

(** ** [alterColumn] *)

(** X16: [alterColumn] emits at most three clauses, at most one per
    concern: DROP DEFAULT exactly when the default is null, SET NOT NULL
    exactly when [notNull] is truthy, and DROP NOT NULL exactly when
    [notNull] is not truthy and either is [false] or [allowNull] is truthy;
    so SET NOT NULL wins over [allowNull]. *)
Theorem alterActions_one_per_concern (options : Object) :
  length (alterActions options) ≤ 3
  ∧ ("DROP DEFAULT" ∈ alterActions options ↔ getProperty options "default" = VNull)
  ∧ ("SET NOT NULL" ∈ alterActions options
     ↔ truthy (getProperty options "notNull") = true)
  ∧ ("DROP NOT NULL" ∈ alterActions options
     ↔ truthy (getProperty options "notNull") = false
       ∧ (getProperty options "notNull" = VBool false
          ∨ truthy (getProperty options "allowNull") = true)).
Proof.
  rewrite alterActions_precedence.
  set (defaults := if decide (getProperty options "default" = VNull) then _ else _).
  set (types := keyword (truthy (getProperty options "type")) _).
  set (nulls := if truthy (getProperty options "notNull") then _ else _).
  assert (length defaults ≤ 1
          ∧ ("DROP DEFAULT" ∈ defaults ↔ getProperty options "default" = VNull)
          ∧ ("SET NOT NULL" ∉ defaults) ∧ ("DROP NOT NULL" ∉ defaults))
    as (Hdefaults & Hdrop & Hdefaults1 & Hdefaults2).
  { subst defaults. repeat case_decide; cbn [length];
      rewrite ?list_elem_of_singleton, ?elem_of_nil; repeat split; try done; lia. }
  assert (length types ≤ 1 ∧ ("DROP DEFAULT" ∉ types)
          ∧ ("SET NOT NULL" ∉ types) ∧ ("DROP NOT NULL" ∉ types))
    as (Htypes & Htypes1 & Htypes2 & Htypes3).
  { subst types. unfold keyword.
    destruct (truthy (getProperty options "type")); cbn [length];
      rewrite ?list_elem_of_singleton, ?elem_of_nil; repeat split; try done; lia. }
  assert (length nulls ≤ 1 ∧ ("DROP DEFAULT" ∉ nulls)
          ∧ ("SET NOT NULL" ∈ nulls ↔ truthy (getProperty options "notNull") = true)
          ∧ ("DROP NOT NULL" ∈ nulls
             ↔ truthy (getProperty options "notNull") = false
               ∧ (getProperty options "notNull" = VBool false
                  ∨ truthy (getProperty options "allowNull") = true)))
    as (Hnulls & Hnulls1 & Hset & Hunset).
  { subst nulls. unfold keyword.
    destruct (truthy (getProperty options "notNull"));
      destruct (bool_decide_reflect (getProperty options "notNull" = VBool false));
      destruct (truthy (getProperty options "allowNull")); cbn [orb length];
      rewrite ?list_elem_of_singleton, ?elem_of_nil;
      repeat split; try done; try lia;
      intuition (try discriminate; try congruence). }
  rewrite !length_app, !elem_of_app. split; [lia |]. tauto.
Qed.

(** X17: [alterColumn] reads the fields [default], [type], [notNull] and
    [allowNull] and nothing else: two option records that agree on these
    four fields give the same statement. *)
Theorem alterColumn_reads_four_fields (table_name column_name : string)
  (options options' : Object) :
  Forall (λ key, getProperty options key = getProperty options' key) alterFields →
  alterColumn table_name column_name options
  = alterColumn table_name column_name options'.
Proof.
  intros Hfields. unfold alterFields in Hfields.
  apply Forall_cons in Hfields as [Hdefault Hfields].
  apply Forall_cons in Hfields as [Htype Hfields].
  apply Forall_cons in Hfields as [HnotNull Hfields].
  apply Forall_cons in Hfields as [HallowNull _].
  unfold alterColumn. rewrite !alterActions_precedence.
  by rewrite Hdefault, Htype, HnotNull, HallowNull.
Qed.

(** X18: for a column name without a dollar sign, at least one clause and
    no line terminator in a clause, the statement of [alterColumn] is one
    ALTER TABLE with every clause on a line of its own behind ALTER and the
    quoted column name, the lines separated by a comma. *)
Theorem alterColumn_one_line_per_clause (table_name column_name : string)
  (options : Object) :
  noDollar column_name = true →
  alterActions options ≠ [] →
  Forall (λ action, singleLine action = true) (alterActions options) →
  alterColumn table_name column_name options
  = "ALTER TABLE " +:+ DQ +:+ table_name +:+ DQ +:+ LF
      +:+ join ("," +:+ LF)
            (map (λ action, "  ALTER " +:+ DQ +:+ column_name +:+ DQ +:+ " " +:+ action)
                 (alterActions options))
      +:+ ";".
Proof. apply alterColumn_clauses. Qed.

(** X19: for a column name without a dollar sign and an option record with
    none of the four fields set, [alterColumn] raises no error and returns
    a statement whose body is the ALTER prefix of the column with no action
    behind it. *)
Theorem alterColumn_nothing_to_alter (table_name column_name : string)
  (options : Object) :
  noDollar column_name = true →
  getProperty options "default" = VUndefined →
  truthy (getProperty options "type") = false →
  getProperty options "notNull" = VUndefined →
  truthy (getProperty options "allowNull") = false →
  alterColumn table_name column_name options
  = "ALTER TABLE " +:+ DQ +:+ table_name +:+ DQ +:+ LF
      +:+ "  ALTER " +:+ DQ +:+ column_name +:+ DQ +:+ " " +:+ ";".
Proof.
  intros Hname Hdefault Htype HnotNull HallowNull.
  apply alterColumn_without_actions; [done |]. by apply alterActions_none.
Qed.

(** ** Column fragments *)

(** X20: without a truthy [references] the fields [onDelete] and [onUpdate]
    have no effect: two option records that differ in these two fields only
    give the same fragment. *)
Theorem columnDefinition_actions_need_references (options options' : Object)
  (column_name : string) :
  truthy (getProperty options "references") = false →
  (∀ key, key ≠ "onDelete" → key ≠ "onUpdate" →
          getProperty options' key = getProperty options key) →
  columnDefinition options' column_name = columnDefinition options column_name.
Proof.
  intros Hreferences Hsame. unfold columnDefinition.
  rewrite !columnConstraints_order.
  rewrite !(Hsame "unique"), !(Hsame "primaryKey"), !(Hsame "notNull"),
    !(Hsame "check"), !(Hsame "references"), !(Hsame "default"), !(Hsame "type")
    by done.
  by rewrite Hreferences.
Qed.

(** ** [applyTypeAdapters] *)

(** X21: resolving a type twice gives what resolving it once gives: no
    result of [applyTypeAdapters] is resolved to something else. *)
Theorem applyTypeAdapters_twice (type : Value) :
  applyTypeAdapters (applyTypeAdapters type) = applyTypeAdapters type.
Proof. apply applyTypeAdapters_idempotent. Qed.

(** X22: the six keys of the adapter table are resolved to their keywords;
    every other string that does not name a member of [Object.prototype]
    is returned as it is, parameterised types included. *)
Theorem applyTypeAdapters_table (key : string) :
  key ∉ adapterKeys →
  inherited key = false →
  applyTypeAdapters (VString key) = VString key
  ∧ applyTypeAdapters (VString "int") = VString "integer"
  ∧ applyTypeAdapters (VString "string") = VString "text"
  ∧ applyTypeAdapters (VString "float") = VString "real"
  ∧ applyTypeAdapters (VString "double") = VString "double precision"
  ∧ applyTypeAdapters (VString "datetime") = VString "timestamp"
  ∧ applyTypeAdapters (VString "bool") = VString "boolean".
Proof.
  intros Hkey Hinherited. split; [| by repeat split].
  apply applyTypeAdapters_other; [| done].
  by apply not_elem_of_list_to_map_1.
Qed.

(** ** Sessions of calls *)

(** The assignment on an ordered object is the insertion into its record. *)
Lemma recordOf_assign (key : string) (v : Value) (properties : Properties) :
  recordOf (assign key v properties) = <[ key := v ]> (recordOf properties).
Proof.
  unfold assign, recordOf. case_bool_decide as Hkey.
  - induction properties as [|[k w] properties IH];
      [by apply elem_of_nil in Hkey |].
    cbn [map]. rewrite !list_to_map_cons. case_bool_decide as Hk.
    + subst k. rewrite insert_insert_eq. clear IH Hkey.
      induction properties as [|[k w'] properties IH]; [done |].
      cbn [map]. rewrite !list_to_map_cons. case_bool_decide as Hk.
      * subst k. by rewrite !insert_insert_eq.
      * rewrite (insert_insert_ne _ key k) by done.
        rewrite (insert_insert_ne _ key k) by done. by rewrite IH.
    + cbn [map fst] in Hkey. apply elem_of_cons in Hkey as [-> | Hkey]; [done |].
      rewrite (insert_insert_ne _ key k) by done. by rewrite IH.
  - apply list_to_map_snoc. by intros Hin.
Qed.

Lemma recordOf_assignTypeInPlace (properties : Properties) :
  recordOf (assignTypeInPlace properties) = assignType (recordOf properties).
Proof. unfold assignTypeInPlace. apply recordOf_assign. Qed.

Lemma recordsOf_resolveType (type_shorthands : gmap string loc) (store : Store)
  (options : ColumnSpec) :
  recordsOf (resolveType type_shorthands store options)
  = fst (expandColumn type_shorthands (recordsOf store) options).
Proof.
  rewrite expandColumn_store. unfold resolveType.
  destruct (referencedRecord type_shorthands options) as [l|]; [| done].
  unfold recordsOf. apply fmap_alter. intros properties _.
  apply recordOf_assignTypeInPlace.
Qed.

(** The store of a session shows, in its records, the store that the first
    pass of [parseColumns] leaves. *)
Lemma recordsOf_resolveTypes (type_shorthands : gmap string loc) (store : Store)
  (columns : ColumnSet) :
  recordsOf (resolveTypes type_shorthands store columns)
  = fst (expandColumns type_shorthands (recordsOf store) columns).
Proof.
  revert store. induction columns as [|[column_name options] columns IH];
    intros store; [done |].
  unfold resolveTypes. cbn [foldl snd expandColumns].
  fold (resolveTypes type_shorthands (resolveType type_shorthands store options) columns).
  rewrite IH, recordsOf_resolveType.
  destruct (expandColumn type_shorthands (recordsOf store) options) as [h1 expanded].
  cbn [fst]. by destruct (expandColumns type_shorthands h1 columns).
Qed.


Lemma withColumns_Some (type_shorthands : gmap string loc) (store : Store)
  (columns : Columns) (builder : ColumnSet → string) (result : Store * Value) :
  withColumns type_shorthands store columns builder = Some result →
  ∃ read, columnSetOf type_shorthands store columns = Some read
          ∧ result = (resolveTypes type_shorthands store read, VString (builder read)).
Proof.
  unfold withColumns.
  destruct (columnSetOf type_shorthands store columns) as [read|]; [| done].
  intros [= <-]. by exists read.
Qed.

(** The store that a session keeps after a builder has gone through
    [parseColumns] shows the records that [parseColumns] leaves. *)
Lemma withColumns_store (extending_type_shorthands : gmap string loc) (store : Store)
  (columns : Columns) (builder : ColumnSet → string) (table_name : Value)
  (result : Store * Value) :
  withColumns (extending_type_shorthands ∪ default_type_shorthands) store columns builder
  = Some result →
  ∃ read,
    columnSetOf (extending_type_shorthands ∪ default_type_shorthands) store columns
    = Some read
    ∧ recordsOf (fst result)
      = fst (parseColumns (recordsOf store) read table_name extending_type_shorthands)
    ∧ snd result = VString (builder read).
Proof.
  intros (read & Hread & ->)%withColumns_Some. exists read.
  split; [done |]. split; [| done].
  cbn [fst]. by rewrite recordsOf_resolveTypes, parseColumns_store.
Qed.

(** A call leaves a store whose records are similar to those it found. *)
Lemma run_preserves (store : Store) (call : Call) (result : Store * Value) :
  run store call = Some result →
  similar (recordsOf store) (recordsOf (fst result)).
Proof.
  destruct call as [ts t columns options| |ts t columns| | | | | | | | | |t [labels|columns]|t l| |];
    cbn [run]; try (intros [= <-]; apply similar_refl);
    intros (read & _ & ->)%withColumns_Some; cbn [fst];
    rewrite recordsOf_resolveTypes; apply expandColumns_similar.
Qed.

Lemma runAll_preserves (store : Store) (calls : list Call) (store' : Store) :
  runAll store calls = Some store' →
  similar (recordsOf store) (recordsOf store').
Proof.
  revert store. induction calls as [|call calls IH]; intros store; cbn [runAll].
  - intros [= <-]. apply similar_refl.
  - destruct (run store call) as [result|] eqn:Hrun; [| done]. cbn.
    intros Hrest. eapply similar_trans; [by apply (run_preserves store call) |].
    by apply IH.
Qed.

Lemma create_similar (type_shorthands : gmap string loc) (h h' : Heap)
  (table_name : string) (columns : ColumnSet) (options : Options) :
  similar h h' →
  snd (create type_shorthands h table_name columns options)
  = snd (create type_shorthands h' table_name columns options).
Proof.
  intros Hsim. rewrite !create_text. cbv zeta.
  rewrite (parseColumns_similar h h') by done.
  rewrite (similar_getProperty
             (fst (parseColumns h columns (VString table_name) type_shorthands))
             (fst (parseColumns h' columns (VString table_name) type_shorthands))
             options "inherits"); [done | | done].
  eapply similar_trans; [apply similar_sym, parseColumns_preserves |].
  eapply similar_trans; [exact Hsim | apply parseColumns_preserves].
Qed.

Lemma addColumns_similar (type_shorthands : gmap string loc) (h h' : Heap)
  (table_name : string) (columns : ColumnSet) :
  similar h h' →
  snd (addColumns type_shorthands h table_name columns)
  = snd (addColumns type_shorthands h' table_name columns).
Proof.
  intros Hsim. rewrite !addColumns_text. by rewrite (parseColumns_similar h h').
Qed.

Lemma createType_similar (h h' : Heap) (type_name : string) (options : TypeOptions) :
  similar h h' →
  snd (createType h type_name options) = snd (createType h' type_name options).
Proof.
  intros Hsim. destruct options as [labels|columns]; [done |].
  rewrite !createType_text. by rewrite (parseColumns_similar h h').
Qed.

(** A call that enumerates no object of the store returns the same value
    on stores with similar records, and it does return. *)
Lemma run_similar (store store' : Store) (call : Call) :
  enumeratesLiteral call = true →
  similar (recordsOf store) (recordsOf store') →
  snd <$> run store call = snd <$> run store' call
  ∧ is_Some (run store call).
Proof.
  intros Hliteral Hsim.
  destruct call as [ts t [columns|l] options| |ts t [columns|l]| | |t c options| | | | | | |t [labels|columns]|t l| |];
    try discriminate Hliteral;
    cbn [run withColumns columnSetOf mbind option_bind fmap option_fmap option_map snd];
    (split; [| by eexists]); try done.
  - do 2 f_equal. by apply create_similar.
  - do 2 f_equal. by apply addColumns_similar.
  - do 2 f_equal.
    rewrite <- (alterColumn_assignType t c (deref (recordsOf store) (Shared options))).
    rewrite <- (alterColumn_assignType t c (deref (recordsOf store') (Shared options))).
    f_equal. by apply (similar_deref _ _ options).
  - do 2 f_equal. by apply (createType_similar _ _ t (CompositeColumns columns)).
Qed.

(** X26: a call that enumerates no object of the store (its ColumnSet, if
    it takes one, is written at the call) returns, and it returns the same
    value whatever calls came before it in the session, also when those
    calls were given the same shorthand dictionary and the same option
    records: what the earlier calls write into shared records does not
    show in its result. *)
Theorem literal_calls_transparent (store store' : Store) (earlier : list Call)
  (call : Call) :
  runAll store earlier = Some store' →
  enumeratesLiteral call = true →
  snd <$> run store' call = snd <$> run store call
  ∧ is_Some (run store call).
Proof.
  intros Hearlier Hliteral.
  destruct (run_similar store store' call Hliteral) as [Hsame Hreturns];
    [by apply (runAll_preserves store earlier) |].
  by split.
Qed.


(** ** The text of [parseColumns], from the records of the caller *)











End Coverage.

(** ** Concrete inputs of the further properties *)



Lemma parseColumns_other_fields_kept_witness :
  "notNull" ≠ "type"
  ∧ (λ obj : Object, obj !! "notNull")
      <$> fst (parseColumns (H := sampleEnvironment) sampleHeap sampleColumns
                 (VString "users") ∅) !! 2%positive
    = (λ obj : Object, obj !! "notNull") <$> sampleHeap !! 2%positive.
Proof.
  assert ("notNull" ≠ "type") as Hkey by done.
  split; [exact Hkey |].
  exact (parseColumns_other_fields_kept (H := sampleEnvironment) sampleHeap
           sampleColumns (VString "users") ∅ 2%positive "notNull" Hkey).
Defined.

Lemma parseColumns_fragment_per_column_witness :
  sampleColumns !! 1 = Some ("age", SpecRecord 2%positive)
  ∧ (∃ rest,
       columnItems (H := sampleEnvironment) (expandedRecords sampleHeap sampleColumns ∅)
         (VString "users") !! 1
       = Some (DQ +:+ "age" +:+ DQ +:+ " " +:+ rest)).
Proof.
  split; [reflexivity |].
  exact (proj1 (parseColumns_fragment_per_column (H := sampleEnvironment) sampleHeap
                  sampleColumns (VString "users") ∅ 1 ("age", SpecRecord 2%positive)
                  eq_refl)).
Defined.

Lemma parseColumns_no_primary_key_witness :
  primaryKeyNames (expandedRecords sampleHeap [("age", SpecRecord 2%positive)] ∅) = []
  ∧ columnItems (H := sampleEnvironment)
      (expandedRecords sampleHeap [("age", SpecRecord 2%positive)] ∅) (VString "users")
    = map (λ record, columnDefinition (H := sampleEnvironment) (snd record) (fst record))
        (expandedRecords sampleHeap [("age", SpecRecord 2%positive)] ∅).
Proof.
  assert (primaryKeyNames
            (expandedRecords sampleHeap [("age", SpecRecord 2%positive)] ∅) = [])
    as Hnone by (vm_compute; reflexivity).
  split; [exact Hnone |].
  exact (proj1 (parseColumns_no_primary_key (H := sampleEnvironment) sampleHeap
                  [("age", SpecRecord 2%positive)] (VString "users") ∅ Hnone)).
Defined.

Lemma parseColumns_table_name_unused_witness :
  length (primaryKeyNames (expandedRecords sampleHeap sampleColumns ∅)) ≤ 1
  ∧ snd (parseColumns (H := sampleEnvironment) sampleHeap sampleColumns
           (VString "users") ∅)
    = snd (parseColumns (H := sampleEnvironment) sampleHeap sampleColumns
             (VString "people") ∅).
Proof.
  assert (length (primaryKeyNames (expandedRecords sampleHeap sampleColumns ∅)) ≤ 1)
    as Hle by (vm_compute; constructor).
  split; [exact Hle |].
  exact (parseColumns_table_name_unused (H := sampleEnvironment) sampleHeap
           sampleColumns (VString "users") (VString "people") ∅ Hle).
Defined.

Lemma create_indents_items_witness :
  sampleColumns ≠ []
  ∧ Forall (λ item, singleLine item = true)
      (columnItems (H := sampleEnvironment) (expandedRecords sampleHeap sampleColumns ∅)
         (VString "users"))
  ∧ snd (create (H := sampleEnvironment) ∅ sampleHeap "users" sampleColumns (Fresh ∅))
    = "CREATE TABLE " +:+ DQ +:+ "users" +:+ DQ +:+ " (" +:+ LF
        +:+ join ("," +:+ LF)
              (map (λ item, "  " +:+ item)
                 (columnItems (H := sampleEnvironment)
                    (expandedRecords sampleHeap sampleColumns ∅) (VString "users")))
        +:+ LF +:+ ")"
        +:+ (if truthy (getProperty (deref sampleHeap (Fresh ∅)) "inherits")
             then " INHERITS "
                    +:+ toString (H := sampleEnvironment)
                          (getProperty (deref sampleHeap (Fresh ∅)) "inherits")
             else EmptyString)
        +:+ ";".
Proof.
  assert (sampleColumns ≠ []) as Hne by done.
  assert (Forall (λ item, singleLine item = true)
            (columnItems (H := sampleEnvironment)
               (expandedRecords sampleHeap sampleColumns ∅) (VString "users")))
    as Hlines by (vm_compute; repeat constructor).
  split; [exact Hne |]. split; [exact Hlines |].
  exact (create_indents_items (H := sampleEnvironment) ∅ sampleHeap "users"
           sampleColumns (Fresh ∅) Hne Hlines).
Defined.

Lemma addColumns_prefixes_items_witness :
  sampleColumns ≠ []
  ∧ Forall (λ item, singleLine item = true)
      (columnItems (H := sampleEnvironment) (expandedRecords sampleHeap sampleColumns ∅)
         (VString "users"))
  ∧ snd (addColumns (H := sampleEnvironment) ∅ sampleHeap "users" sampleColumns)
    = "ALTER TABLE " +:+ DQ +:+ "users" +:+ DQ +:+ LF
        +:+ join ("," +:+ LF)
              (map (λ item, "  ADD " +:+ item)
                 (columnItems (H := sampleEnvironment)
                    (expandedRecords sampleHeap sampleColumns ∅) (VString "users")))
        +:+ ";".
Proof.
  assert (sampleColumns ≠ []) as Hne by done.
  assert (Forall (λ item, singleLine item = true)
            (columnItems (H := sampleEnvironment)
               (expandedRecords sampleHeap sampleColumns ∅) (VString "users")))
    as Hlines by (vm_compute; repeat constructor).
  split; [exact Hne |]. split; [exact Hlines |].
  exact (addColumns_prefixes_items (H := sampleEnvironment) ∅ sampleHeap "users"
           sampleColumns Hne Hlines).
Defined.

Lemma createType_enum_labels_witness :
  ["happy"; "sad"] ≠ []
  ∧ createType (H := sampleEnvironment) sampleHeap "mood" (EnumLabels ["happy"; "sad"])
    = (sampleHeap,
       "CREATE TYPE " +:+ DQ +:+ "mood" +:+ DQ +:+ " AS ENUM ("
         +:+ join ", " (map (λ label, "'" +:+ label +:+ "'") ["happy"; "sad"])
         +:+ ");").
Proof.
  assert (["happy"; "sad"] ≠ []) as Hne by done.
  split; [exact Hne |].
  exact (createType_enum_labels (H := sampleEnvironment) sampleHeap "mood"
           ["happy"; "sad"] Hne).
Defined.

Lemma addConstraint_unnamed_witness :
  truthy (VString EmptyString) = false
  ∧ addConstraint (H := sampleEnvironment) "users" (VString EmptyString) "CHECK (age > 0)"
    = "ALTER TABLE " +:+ DQ +:+ "users" +:+ DQ +:+ " ADD " +:+ "CHECK (age > 0)" +:+ ";".
Proof.
  split; [reflexivity |].
  exact (addConstraint_unnamed (H := sampleEnvironment) "users" (VString EmptyString)
           "CHECK (age > 0)" eq_refl).
Defined.

Lemma reverse_is_final_witness :
  reverse AddColumns = Some DropColumns
  ∧ reverse DropColumns = None
  ∧ ∀ other, reverse other = Some DropColumns → other = AddColumns.
Proof.
  split; [reflexivity |].
  exact (reverse_is_final AddColumns DropColumns eq_refl).
Defined.

Lemma dropColumns_keys_only_witness :
  map fst sampleColumns = map fst [("id", SpecUndefined); ("age", SpecString "int")]
  ∧ dropColumns (H := sampleEnvironment) "users" (DropColumnSet sampleColumns)
    = dropColumns (H := sampleEnvironment) "users"
        (DropColumnSet [("id", SpecUndefined); ("age", SpecString "int")]).
Proof.
  split; [reflexivity |].
  exact (proj1 (dropColumns_keys_only (H := sampleEnvironment) "users" sampleColumns
                  [("id", SpecUndefined); ("age", SpecString "int")] eq_refl)).
Defined.

Lemma alterColumn_reads_four_fields_witness :
  Forall (λ key,
            getProperty (list_to_map [("type", VString "int"); ("unique", VBool true)]) key
            = getProperty {[ "type" := VString "int" ]} key)
    alterFields
  ∧ alterColumn (H := sampleEnvironment) "users" "age"
      (list_to_map [("type", VString "int"); ("unique", VBool true)])
    = alterColumn (H := sampleEnvironment) "users" "age" {[ "type" := VString "int" ]}.
Proof.
  assert (Forall (λ key,
                    getProperty
                      (list_to_map [("type", VString "int"); ("unique", VBool true)]) key
                    = getProperty {[ "type" := VString "int" ]} key)
            alterFields) as Hfields by (repeat constructor).
  split; [exact Hfields |].
  exact (alterColumn_reads_four_fields (H := sampleEnvironment) "users" "age" _ _ Hfields).
Defined.

Lemma alterColumn_one_line_per_clause_witness :
  noDollar "age" = true
  ∧ alterActions (H := sampleEnvironment)
      (list_to_map [("type", VString "int"); ("notNull", VBool false)]) ≠ []
  ∧ Forall (λ action, singleLine action = true)
      (alterActions (H := sampleEnvironment)
         (list_to_map [("type", VString "int"); ("notNull", VBool false)]))
  ∧ alterColumn (H := sampleEnvironment) "users" "age"
      (list_to_map [("type", VString "int"); ("notNull", VBool false)])
    = "ALTER TABLE " +:+ DQ +:+ "users" +:+ DQ +:+ LF
        +:+ join ("," +:+ LF)
              (map (λ action, "  ALTER " +:+ DQ +:+ "age" +:+ DQ +:+ " " +:+ action)
                 (alterActions (H := sampleEnvironment)
                    (list_to_map [("type", VString "int"); ("notNull", VBool false)])))
        +:+ ";".
Proof.
  assert (alterActions (H := sampleEnvironment)
            (list_to_map [("type", VString "int"); ("notNull", VBool false)]) ≠ [])
    as Hne by (vm_compute; discriminate).
  assert (Forall (λ action, singleLine action = true)
            (alterActions (H := sampleEnvironment)
               (list_to_map [("type", VString "int"); ("notNull", VBool false)])))
    as Hlines by (vm_compute; repeat constructor).
  split; [reflexivity |]. split; [exact Hne |]. split; [exact Hlines |].
  exact (alterColumn_one_line_per_clause (H := sampleEnvironment) "users" "age" _
           eq_refl Hne Hlines).
Defined.

Lemma alterColumn_nothing_to_alter_witness :
  noDollar "age" = true
  ∧ getProperty {[ "unique" := VBool true ]} "default" = VUndefined
  ∧ truthy (getProperty {[ "unique" := VBool true ]} "type") = false
  ∧ getProperty {[ "unique" := VBool true ]} "notNull" = VUndefined
  ∧ truthy (getProperty {[ "unique" := VBool true ]} "allowNull") = false
  ∧ alterColumn (H := sampleEnvironment) "users" "age" {[ "unique" := VBool true ]}
    = "ALTER TABLE " +:+ DQ +:+ "users" +:+ DQ +:+ LF
        +:+ "  ALTER " +:+ DQ +:+ "age" +:+ DQ +:+ " " +:+ ";".
Proof.
  repeat (split; [reflexivity |]).
  exact (alterColumn_nothing_to_alter (H := sampleEnvironment) "users" "age"
           {[ "unique" := VBool true ]} eq_refl eq_refl eq_refl eq_refl eq_refl).
Defined.

Lemma columnDefinition_actions_need_references_witness :
  truthy (getProperty {[ "type" := VString "integer" ]} "references") = false
  ∧ columnDefinition (H := sampleEnvironment)
      (<[ "onDelete" := VString "CASCADE" ]> {[ "type" := VString "integer" ]}) "owner"
    = columnDefinition (H := sampleEnvironment) {[ "type" := VString "integer" ]} "owner".
Proof.
  split; [reflexivity |].
  refine (columnDefinition_actions_need_references (H := sampleEnvironment)
            {[ "type" := VString "integer" ]}
            (<[ "onDelete" := VString "CASCADE" ]> {[ "type" := VString "integer" ]})
            "owner" eq_refl _).
  intros key Hdelete Hupdate. unfold getProperty. by rewrite lookup_insert_ne.
Defined.

Lemma applyTypeAdapters_table_witness :
  ("varchar(20)" ∉ adapterKeys)
  ∧ inherited "varchar(20)" = false
  ∧ applyTypeAdapters (VString "varchar(20)") = VString "varchar(20)".
Proof.
  assert ("varchar(20)" ∉ adapterKeys) as Hkey
    by (apply (bool_decide_unpack _); vm_compute; exact I).
  split; [exact Hkey |]. split; [reflexivity |].
  exact (proj1 (applyTypeAdapters_table "varchar(20)" Hkey eq_refl)).
Defined.

Lemma createType_composite_fragments_witness :
  length (primaryKeyNames
            (expandedRecords sampleHeap sampleColumns ∅)) ≤ 1
  ∧ snd (createType (H := sampleEnvironment) sampleHeap "person"
           (CompositeColumns sampleColumns))
    = "CREATE TYPE " +:+ DQ +:+ "person" +:+ DQ +:+ " AS (" +:+ LF
        +:+ join ("," +:+ LF)
              (map (λ record,
                      columnDefinition (H := sampleEnvironment) (snd record) (fst record))
                 (expandedRecords sampleHeap sampleColumns ∅))
        +:+ LF +:+ ");".
Proof.
  assert (length (primaryKeyNames
                    (expandedRecords sampleHeap
                       sampleColumns ∅)) ≤ 1)
    as Hle by (vm_compute; repeat constructor).
  split; [exact Hle |].
  exact (createType_composite_fragments (H := sampleEnvironment) sampleHeap "person"
           sampleColumns Hle).
Defined.

Lemma literal_calls_transparent_witness :
  runAll (H := sampleEnvironment) sampleStore
    [CallCreate ∅ "users" (ColumnsLiteral sampleColumns) None;
     CallDropColumnsOf "users" 2%positive]
  = Some sampleStoreResolved
  ∧ enumeratesLiteral (CallAlterColumn "users" "age" 2%positive) = true
  ∧ snd <$> run (H := sampleEnvironment) sampleStoreResolved
              (CallAlterColumn "users" "age" 2%positive)
    = snd <$> run (H := sampleEnvironment) sampleStore
                (CallAlterColumn "users" "age" 2%positive)
  ∧ is_Some (run (H := sampleEnvironment) sampleStore
               (CallAlterColumn "users" "age" 2%positive)).
Proof.
  assert (runAll (H := sampleEnvironment) sampleStore
            [CallCreate ∅ "users" (ColumnsLiteral sampleColumns) None;
             CallDropColumnsOf "users" 2%positive]
          = Some sampleStoreResolved) as Hearlier
    by (apply (bool_decide_unpack _); vm_compute; exact I).
  split; [exact Hearlier |]. split; [reflexivity |].
  exact (literal_calls_transparent (H := sampleEnvironment) sampleStore
           sampleStoreResolved
           [CallCreate ∅ "users" (ColumnsLiteral sampleColumns) None;
            CallDropColumnsOf "users" 2%positive]
           (CallAlterColumn "users" "age" 2%positive) Hearlier eq_refl).
Defined.
